(** * Signal Sciences integration: API client and cloud-WAF converter

    A shallow embedding of [src/client.ts] (class [SignalSciencesAPIClient])
    and of the cloud-WAF converter ([getCloudWAFKey], [createCloudWAFEntity]).

    The client is asynchronous JavaScript.  One logical thread of control is
    modelled: an [await] is a sequencing point, a rejected promise is a thrown
    error.  Calls that leave the client (axios, the caller's iteratee) are
    effects of a small program tree that is run against an arbitrary
    environment; every call is recorded, with its outcome, in a trace. *)

From Stdlib Require Import ZArith List String Ascii Bool Lia DecimalString.
Import ListNotations.
Local Open Scope string_scope.
Local Open Scope Z_scope.
Set Warnings "-register-all".

(* ===================================================================== *)
(** ** JavaScript values *)
(* ===================================================================== *)

Module JS.

(** The values a JSON body can hold, plus [undefined].  Numbers are the
    integral ones (an HTTP status, a count), and stand for the number of the
    code up to 2^53, where every integer is a number of its own and prints
    with all its digits; strings are sequences of UTF-8 bytes; an object
    keeps its properties in insertion order. *)
Inductive JSValue : Type :=
| JUndefined
| JNull
| JBool (b : bool)
| JNum (n : Z)
| JStr (s : string)
| JArr (items : list JSValue)
| JObj (props : list (string * JSValue)).

(** Own-property lookup in an object literal. *)
Fixpoint lookup (name : string) (props : list (string * JSValue)) : option JSValue :=
  match props with
  | [] => None
  | (k, v) :: rest => if String.eqb k name then Some v else lookup name rest
  end.

Definition is_nullish (v : JSValue) : bool :=
  match v with
  | JUndefined | JNull => true
  | _ => false
  end.

(** ToBoolean: what [if (x)] and [!x] test. *)
Definition truthy (v : JSValue) : bool :=
  match v with
  | JUndefined | JNull => false
  | JBool b => b
  | JNum n => negb (n =? 0)
  | JStr s => negb (String.eqb s "")
  | JArr _ | JObj _ => true
  end.

Definition string_of_Z (n : Z) : string := NilZero.string_of_int (Z.to_int n).

(** The text ToString gives, as a template literal [`${v}`] applies it, for
    a value it can convert (see [convertible] below) whose numbers are within
    2^53 (see [exact_numbers]).  An array joins its elements with commas, a
    hole for [null] and [undefined]. *)
Fixpoint to_string (v : JSValue) : string :=
  match v with
  | JUndefined => "undefined"
  | JNull => "null"
  | JBool true => "true"
  | JBool false => "false"
  | JNum n => string_of_Z n
  | JStr s => s
  | JArr items =>
      String.concat ","
        (map (fun x => match x with
                       | JUndefined | JNull => ""
                       | _ => to_string x
                       end) items)
  | JObj _ => "[object Object]"
  end.

(** A UTF-8 continuation byte is [10xxxxxx]. *)
Definition is_continuation (c : ascii) : bool :=
  let n := N_of_ascii c in ((128 <=? n) && (n <? 192))%N.

Definition starts_with_continuation (s : string) : bool :=
  match s with
  | String c _ => is_continuation c
  | EmptyString => false
  end.

(** The code points of a string: a new one starts at every byte that is not
    a continuation byte. *)
Fixpoint code_points (s : string) : list string :=
  match s with
  | EmptyString => []
  | String c rest =>
      match code_points rest with
      | p :: ps =>
          if starts_with_continuation rest
          then String c p :: ps
          else String c EmptyString :: p :: ps
      | [] => [String c EmptyString]
      end
  end.

End JS.
Import JS.

(* ===================================================================== *)
(** ** Errors *)
(* ===================================================================== *)

(** What the code can throw or see thrown.  The two provider errors are the
    SDK's [IntegrationProviderAuthenticationError] and
    [IntegrationProviderAPIError], built from
    [{endpoint, status, statusText, cause?}]; [Error] and [TypeError] are the
    language's; [Rejection] is an error object that a collaborator (axios, an
    iteratee) rejected with, given by its own properties. *)
Inductive JSError : Type :=
| IntegrationProviderAuthenticationError
    (endpoint : string) (status statusText : JSValue) (cause : option JSError)
| IntegrationProviderAPIError
    (endpoint : string) (status statusText : JSValue) (cause : option JSError)
| Error (message : string)
| TypeError (message : string)
| Rejection (props : list (string * JSValue)).

(** Reading a property of a caught error, [err.name]. *)
Definition err_prop (err : JSError) (name : string) : JSValue :=
  match err with
  | IntegrationProviderAuthenticationError ep st txt _
  | IntegrationProviderAPIError ep st txt _ =>
      if String.eqb name "endpoint" then JStr ep
      else if String.eqb name "status" then st
      else if String.eqb name "statusText" then txt
      else JUndefined
  | Error m | TypeError m =>
      if String.eqb name "message" then JStr m else JUndefined
  | Rejection props =>
      match lookup name props with
      | Some v => v
      | None => JUndefined
      end
  end.

Definition Result (A : Type) : Type := (JSError + A)%type.

(** Whether ToString can convert a value.  An object that has a property of
    its own named [toString] cannot be converted: a parsed body holds no
    function, so that property is not callable, and [valueOf] gives back the
    object.  An array converts when its elements do. *)
Fixpoint convertible (v : JSValue) : bool :=
  match v with
  | JObj props =>
      match lookup "toString" props with
      | Some _ => false
      | None => true
      end
  | JArr items =>
      forallb (fun x => match x with
                        | JUndefined | JNull => true
                        | _ => convertible x
                        end) items
  | _ => true
  end.

(** Whether the numbers ToString prints of a value are within 2^53. *)
Fixpoint exact_numbers (v : JSValue) : bool :=
  match v with
  | JNum n => Z.abs n <=? 2 ^ 53
  | JArr items => forallb exact_numbers items
  | _ => true
  end.

(** ToString: the text, or the TypeError of a value that has no primitive
    value. *)
Definition ToString (v : JSValue) : Result string :=
  if convertible v then inr (to_string v)
  else inl (TypeError "Cannot convert object to primitive value").

(** [new Error(message)]: the message is converted with ToString unless it is
    [undefined]; a conversion that throws makes the construction throw. *)
Definition new_Error (message : JSValue) : Result JSError :=
  match message with
  | JUndefined => inr (Error "")
  | _ =>
      match ToString message with
      | inr text => inr (Error text)
      | inl e => inl e
      end
  end.

(** A property read [v.name] (for a name that is no built-in member such as
    [length]): a TypeError on [null] and [undefined], the own property of an
    object, [undefined] on everything else. *)
Definition get_prop (v : JSValue) (name : string) : Result JSValue :=
  match v with
  | JUndefined =>
      inl (TypeError ("Cannot read properties of undefined (reading '"
                        ++ name ++ "')"))
  | JNull =>
      inl (TypeError ("Cannot read properties of null (reading '"
                        ++ name ++ "')"))
  | JObj props =>
      inr (match lookup name props with Some x => x | None => JUndefined end)
  | _ => inr JUndefined
  end.

(** An index read [v[0]]. *)
Definition get_first (v : JSValue) : Result JSValue :=
  match v with
  | JUndefined =>
      inl (TypeError "Cannot read properties of undefined (reading '0')")
  | JNull =>
      inl (TypeError "Cannot read properties of null (reading '0')")
  | JArr items => inr (hd JUndefined items)
  | JStr s => inr (match code_points s with p :: _ => JStr p | [] => JUndefined end)
  | JObj props =>
      inr (match lookup "0" props with Some x => x | None => JUndefined end)
  | _ => inr JUndefined
  end.

(** Optional chaining [v?.name]. *)
Definition get_prop_opt (v : JSValue) (name : string) : JSValue :=
  if is_nullish v then JUndefined
  else match get_prop v name with inr x => x | inl _ => JUndefined end.

(** What [for (const x of v)] walks through: the elements of an array, the
    code points of a string; nothing else that JSON yields is iterable. *)
Definition iterate (v : JSValue) : option (list JSValue) :=
  match v with
  | JArr items => Some items
  | JStr s => Some (map JStr (code_points s))
  | _ => None
  end.

(* ===================================================================== *)
(** ** URL-encoded form data *)
(* ===================================================================== *)

Definition hex_digit (n : N) : ascii :=
  ascii_of_N (if (n <? 10)%N then 48 + n else 55 + n)%N.

(** The application/x-www-form-urlencoded byte serializer: alphanumerics and
    [*-._] stay, a space becomes [+], any other byte is percent-encoded. *)
Definition form_byte (c : ascii) : string :=
  let n := N_of_ascii c in
  if ((48 <=? n) && (n <=? 57) || (65 <=? n) && (n <=? 90)
      || (97 <=? n) && (n <=? 122)
      || (n =? 42) || (n =? 45) || (n =? 46) || (n =? 95))%N
  then String c EmptyString
  else if (n =? 32)%N then "+"
  else String "%" (String (hex_digit (n / 16)) (String (hex_digit (n mod 16)) EmptyString)).

Fixpoint form_encode (s : string) : string :=
  match s with
  | EmptyString => EmptyString
  | String c rest => form_byte c ++ form_encode rest
  end.

(** [new URLSearchParams(entries).toString()]. *)
Definition URLSearchParams_toString (entries : list (string * string)) : string :=
  String.concat "&"
    (map (fun kv => form_encode (fst kv) ++ "=" ++ form_encode (snd kv)) entries).

(* ===================================================================== *)
(** ** Programs: effects, sequencing, try/catch *)
(* ===================================================================== *)

(** An HTTP response as axios hands it over. *)
Record Response : Type := mkResponse
  { status : Z; statusText : string; data : JSValue }.

(** How an axios promise settles. *)
Inductive AxiosResult : Type :=
| Resolved (response : Response)
| Rejected (error : JSError).

(** The calls that leave the client's code, each with the type of what it
    answers, and the accesses to the client's [token] field. *)
Inductive Effect : Type -> Type :=
| AxiosPost (url body : string) : Effect AxiosResult
| AxiosGet (url : string) (headers : list (string * string))
           (validateStatus : Z -> bool) : Effect AxiosResult
| Iteratee (each : JSValue) : Effect (Result unit)
| SetToken (t : JSValue) : Effect unit
| GetToken : Effect JSValue.

Inductive Prog (A : Type) : Type :=
| Ret (a : A)
| Throw (e : JSError)
| Vis {X : Type} (eff : Effect X) (k : X -> Prog A).

Arguments Ret {A} a.
Arguments Throw {A} e.
Arguments Vis {A X} eff k.

Fixpoint bind {A B : Type} (p : Prog A) (f : A -> Prog B) : Prog B :=
  match p with
  | Ret a => f a
  | Throw e => Throw e
  | Vis eff k => Vis eff (fun x => bind (k x) f)
  end.

(** [try { p } catch (err) { handler err }]. *)
Fixpoint try_catch {A : Type} (p : Prog A) (handler : JSError -> Prog A) : Prog A :=
  match p with
  | Ret a => Ret a
  | Throw e => handler e
  | Vis eff k => Vis eff (fun x => try_catch (k x) handler)
  end.

Declare Scope prog_scope.
Delimit Scope prog_scope with prog.
Notation "x <- p ;; q" := (bind p (fun x => q))
  (at level 61, p at next level, right associativity) : prog_scope.
Local Open Scope prog_scope.

Definition lift {A : Type} (r : Result A) : Prog A :=
  match r with
  | inl e => Throw e
  | inr a => Ret a
  end.

(** [await axios.post(url, body)] and [await axios.get(url, {headers,
    validateStatus})]: a rejection is thrown at the [await]. *)
Definition await_axios (r : AxiosResult) : Prog Response :=
  match r with
  | Resolved response => Ret response
  | Rejected error => Throw error
  end.

Definition axios_post (url body : string) : Prog Response :=
  Vis (AxiosPost url body) await_axios.

Definition axios_get (url : string) (headers : list (string * string))
    (validateStatus : Z -> bool) : Prog Response :=
  Vis (AxiosGet url headers validateStatus) await_axios.

(** A caller's iteratee seen from the client: it is called with one element
    and completes or throws. *)
Definition call_iteratee (each : JSValue) : Prog unit :=
  Vis (Iteratee each) lift.

(** [for (const x of items) { await body(x); }] over the elements already
    taken from the iterable. *)
Fixpoint for_of (items : list JSValue) (body : JSValue -> Prog unit) : Prog unit :=
  match items with
  | [] => Ret tt
  | x :: rest => _ <- body x ;; for_of rest body
  end.

Definition iterable (v : JSValue) : Prog (list JSValue) :=
  match iterate v with
  | Some items => Ret items
  | None => Throw (TypeError (to_string v ++ " is not iterable"))
  end.

(* ===================================================================== *)
(** ** The API client ([SignalSciencesAPIClient]) *)
(* ===================================================================== *)

Definition BASE_URI : string := "https://dashboard.signalsciences.net/api/v0".

(** The retry settings the constructor installs with [axiosRetry]. *)
Definition retries : nat := 5.

Definition is_number (v : JSValue) (n : Z) : bool :=
  match v with
  | JNum m => m =? n
  | _ => false
  end.

Definition retryDelay (retryCount : Z) (error : JSError) : Z :=
  if is_number (get_prop_opt (err_prop error "response") "status") 429
  then retryCount * 1000
  else 0.

(** [IntegrationConfig]. *)
Record IntegrationConfig : Type := mkConfig
  { email : string; password : string }.

Definition buildEndpoint (corp : JSValue) (path : option string) : Result string :=
  if negb (truthy corp) then
    inl (Error ("Parameter 'corp' is required, but received " ++ to_string corp))
  else
    match path with
    | Some p =>
        if negb (String.eqb p "")
        then inr (BASE_URI ++ "/corps/" ++ to_string corp ++ p)
        else inr (BASE_URI ++ "/corps/" ++ to_string corp)
    | None => inr (BASE_URI ++ "/corps/" ++ to_string corp)
    end.

Section Client.

Variable config : IntegrationConfig.

Definition tokenRequest : list (string * string) :=
  [("email", email config); ("password", password config)].

Definition authenticate : Prog JSValue :=
  try_catch
    (let params := URLSearchParams_toString tokenRequest in
     response <- axios_post (BASE_URI ++ "/auth") params ;;
     lift (get_prop (data response) "token"))
    (fun err =>
       Throw (IntegrationProviderAuthenticationError
                (BASE_URI ++ "/auth")
                (err_prop err "status")
                (err_prop err "statusText")
                None)).

Definition fetch (endpoint : string) : Prog JSValue :=
  t <- authenticate ;;
  _ <- Vis (SetToken t) Ret ;;
  token <- Vis GetToken Ret ;;
  response <- axios_get endpoint
                [("Authorization", "Bearer " ++ to_string token)]
                (fun _ => true) ;;
  if status response =? 200 then
    Ret (data response)
  else if existsb (fun code => status response =? code) [401; 403] then
    cause <- lift (new_Error (data response)) ;;
    Throw (IntegrationProviderAuthenticationError
             endpoint
             (JNum (status response))
             (JStr (statusText response))
             (Some cause))
  else
    cause <- lift (new_Error (data response)) ;;
    Throw (IntegrationProviderAPIError
             endpoint
             (JNum (status response))
             (JStr (statusText response))
             (Some cause)).

Definition verifyAuthentication : Prog unit :=
  let endpoint := BASE_URI ++ "/corps" in
  _ <- fetch endpoint ;;
  Ret tt.

(** [const { data } = await this.fetch(endpoint)] reads the [data] property
    of the body; [for (const corp of data)] then walks through it. *)
Definition iterateCorps (iteratee : JSValue -> Prog unit) : Prog unit :=
  let endpoint := BASE_URI ++ "/corps" in
  body <- fetch endpoint ;;
  data <- lift (get_prop body "data") ;;
  corps <- iterable data ;;
  for_of corps iteratee.

Definition iterateUsers (corpName : JSValue) (iteratee : JSValue -> Prog unit) : Prog unit :=
  endpoint <- lift (buildEndpoint corpName (Some "/users")) ;;
  body <- fetch endpoint ;;
  data <- lift (get_prop body "data") ;;
  users <- iterable data ;;
  for_of users iteratee.

Definition iterateCloudWAFInstances (corpName : JSValue)
    (iteratee : JSValue -> Prog unit) : Prog unit :=
  endpoint <- lift (buildEndpoint corpName (Some "/cloudwafInstances")) ;;
  body <- fetch endpoint ;;
  data <- lift (get_prop body "data") ;;
  cloudwafs <- iterable data ;;
  for_of cloudwafs iteratee.

End Client.

(* ===================================================================== *)
(** ** Running a program against an environment *)
(* ===================================================================== *)

(** One entry per call that left the client, with how it settled. *)
Inductive Event : Type :=
| EvPost (url body : string) (result : AxiosResult)
| EvGet (url : string) (headers : list (string * string)) (result : AxiosResult)
| EvIteratee (each : JSValue) (result : Result unit).

(** The collaborators: two axios entry points and the caller's iteratee, each
    a transition on the environment's own state [S]. *)
Record Env (S : Type) : Type := mkEnv
  { env_post : string -> string -> S -> AxiosResult * S;
    env_get : string -> list (string * string) -> (Z -> bool) -> S -> AxiosResult * S;
    env_iteratee : JSValue -> S -> Result unit * S }.

Arguments env_post {S} _ _ _ _.
Arguments env_get {S} _ _ _ _ _.
Arguments env_iteratee {S} _ _ _.

(** The environment's state, the client's [token] field and the calls so
    far, oldest first. *)
Record World (S : Type) : Type := mkWorld
  { outside : S; this_token : JSValue; trace : list Event }.

Arguments mkWorld {S} _ _ _.
Arguments outside {S} _.
Arguments this_token {S} _.
Arguments trace {S} _.

Definition handle {S X : Type} (env : Env S) (eff : Effect X) (w : World S)
  : X * World S :=
  match eff in Effect T return T * World S with
  | AxiosPost url body =>
      let (r, s) := env_post env url body (outside w) in
      (r, mkWorld s (this_token w) (trace w ++ [EvPost url body r]))
  | AxiosGet url headers validateStatus =>
      let (r, s) := env_get env url headers validateStatus (outside w) in
      (r, mkWorld s (this_token w) (trace w ++ [EvGet url headers r]))
  | Iteratee each =>
      let (r, s) := env_iteratee env each (outside w) in
      (r, mkWorld s (this_token w) (trace w ++ [EvIteratee each r]))
  | SetToken t => (tt, mkWorld (outside w) t (trace w))
  | GetToken => (this_token w, w)
  end.

Fixpoint run {S A : Type} (env : Env S) (p : Prog A) (w : World S)
  : Result A * World S :=
  match p with
  | Ret a => (inr a, w)
  | Throw e => (inl e, w)
  | Vis eff k => let (x, w') := handle env eff w in run env (k x) w'
  end.

(* ===================================================================== *)
(** ** axios with the retry layer *)
(* ===================================================================== *)

(** axios and axios-retry are packages outside the repository.  What the
    client relies on is modelled here: a request is sent to a server; the
    promise resolves when a response arrives and [validateStatus] accepts its
    status, and rejects otherwise (with an error object carrying the response,
    or with the transport's error).  The retry layer sees rejections only: its
    [retryDelay] callback is handed the error.  It re-issues the request while
    fewer than [retries] retries were made and [retryCondition] accepts the
    error, after waiting [retryDelay retryCount error] milliseconds.  The
    client configures [retries] and [retryDelay] and leaves [retryCondition]
    to the package, so it stays a parameter. *)
Module Axios.

Inductive Request : Type :=
| POST (url body : string)
| GET (url : string) (headers : list (string * string)).

(** What comes back from the wire: a response, or no response at all (the
    properties of the transport's error). *)
Inductive Raw : Type :=
| Reply (response : Response)
| NoReply (props : list (string * JSValue)).

(** What happened below the promise: each request sent and each wait. *)
Inductive Wire : Type :=
| Sent (request : Request) (raw : Raw)
| Slept (milliseconds : Z).

Definition response_object (r : Response) : JSValue :=
  JObj [("status", JNum (status r));
        ("statusText", JStr (statusText r));
        ("data", data r)].

Definition status_error (r : Response) : JSError :=
  Rejection
    [("message", JStr ("Request failed with status code " ++ string_of_Z (status r)));
     ("isAxiosError", JBool true);
     ("response", response_object r)].

(** axios's default [validateStatus]. *)
Definition default_validateStatus (s : Z) : bool := (200 <=? s) && (s <? 300).

Definition settle (validateStatus : Z -> bool) (raw : Raw) : AxiosResult :=
  match raw with
  | Reply r => if validateStatus (status r) then Resolved r else Rejected (status_error r)
  | NoReply props => Rejected (Rejection props)
  end.

Section Retry.

Context {S : Type}.
Variable serve : Request -> S -> Raw * S.
Variable retryCondition : JSError -> bool.

Fixpoint request (retries_left : nat) (retryCount : Z) (validateStatus : Z -> bool)
    (req : Request) (st : S * list Wire) : AxiosResult * (S * list Wire) :=
  let (raw, s) := serve req (fst st) in
  let wire := (snd st ++ [Sent req raw])%list in
  match settle validateStatus raw with
  | Resolved r => (Resolved r, (s, wire))
  | Rejected error =>
      match retries_left with
      | O => (Rejected error, (s, wire))
      | Datatypes.S n =>
          if retryCondition error then
            request n (retryCount + 1) validateStatus req
              (s, (wire ++ [Slept (retryDelay (retryCount + 1) error)])%list)
          else (Rejected error, (s, wire))
      end
  end.

(** The environment the client runs in: axios patched by [axiosRetry] in
    front of the server, and an iteratee that completes. *)
Definition env : Env (S * list Wire) :=
  {| env_post := fun url body => request retries 0 default_validateStatus (POST url body);
     env_get := fun url headers validateStatus =>
                  request retries 0 validateStatus (GET url headers);
     env_iteratee := fun _ st => (inr tt, st) |}.

End Retry.

End Axios.

(* ===================================================================== *)
(** ** The cloud-WAF converter *)
(* ===================================================================== *)

(** Modelled from the spec: the constants module ([Entities]) is not part of
    the sources at hand; the type and class of a cloud-WAF entity are the ones
    the step's test asserts ([sigsci_cloudwaf], [Firewall]). *)
Definition Entities_CLOUD_WAF_type : string := "sigsci_cloudwaf".
Definition Entities_CLOUD_WAF_class : list string := ["Firewall"].

(** A graph entity: its properties and the raw record it was made from. *)
Record Entity : Type := mkEntity
  { properties : list (string * JSValue); rawData : JSValue }.

Record EntityData : Type := mkEntityData
  { source : JSValue; assign : list (string * JSValue) }.

(** The SDK's [createIntegrationEntity] is outside the repository.  Of the
    entity it builds, the model keeps the raw source and the assigned
    properties, whose values take precedence over anything the SDK derives
    from the source; the properties the SDK adds of its own, and their order,
    are not modelled. *)
Definition createIntegrationEntity (entityData : EntityData) : Entity :=
  {| properties := assign entityData; rawData := source entityData |}.

Definition entity_prop (e : Entity) (name : string) : option JSValue :=
  lookup name (properties e).

Definition getCloudWAFKey (id : JSValue) : string :=
  "sigsci_cloudwaf:" ++ to_string id.

Declare Scope result_scope.
Delimit Scope result_scope with result.
Notation "'let*' x ':=' r 'in' k" :=
  (match r with inl e => inl e | inr x => k end)
  (at level 10, x name, r at level 100, k at level 200) : result_scope.

Section Converter.

(** The SDK's [parseTimePropertyValue], a total function on values. *)
Variable parseTimePropertyValue : JSValue -> JSValue.

Local Open Scope result_scope.

(** The properties of the object literal are evaluated in source order; the
    first read that fails aborts the call. *)
Definition createCloudWAFEntity (cloudWAF : JSValue) : Result Entity :=
  let* id := get_prop cloudWAF "id" in
  let* name := get_prop cloudWAF "name" in
  let* displayName := get_prop cloudWAF "name" in
  let* description := get_prop cloudWAF "description" in
  let* region := get_prop cloudWAF "region" in
  let* tlsMinVersion := get_prop cloudWAF "tlsMinVersion" in
  let* workspaceConfigs := get_prop cloudWAF "workspaceConfigs" in
  let* workspaceConfig := get_first workspaceConfigs in
  let* siteName := get_prop workspaceConfig "siteName" in
  let* deployment1 := get_prop cloudWAF "deployment" in
  let* deploymentStatus := get_prop deployment1 "status" in
  let* deployment2 := get_prop cloudWAF "deployment" in
  let* deploymentMessage := get_prop deployment2 "message" in
  let* deployment3 := get_prop cloudWAF "deployment" in
  let* deploymentEgressIps := get_prop deployment3 "egressIps" in
  let* deployment4 := get_prop cloudWAF "deployment" in
  let* deploymentDnsEntry := get_prop deployment4 "dnsEntry" in
  let* useUploadedCertificates := get_prop cloudWAF "useUploadedCertificates" in
  let* createdBy := get_prop cloudWAF "createdBy" in
  let* created := get_prop cloudWAF "created" in
  let* updatedBy := get_prop cloudWAF "updatedBy" in
  inr (createIntegrationEntity
         {| source := cloudWAF;
            assign :=
              [("_type", JStr Entities_CLOUD_WAF_type);
               ("_class", JArr (map JStr Entities_CLOUD_WAF_class));
               ("_key", JStr (getCloudWAFKey id));
               ("name", name);
               ("displayName", displayName);
               ("category", JArr [JStr "application"]);
               ("description", description);
               ("region", region);
               ("tlsMinVersion", tlsMinVersion);
               ("siteName", siteName);
               ("deploymentStatus", deploymentStatus);
               ("deploymentMessage", deploymentMessage);
               ("deploymentEgressIps", deploymentEgressIps);
               ("deploymentDnsEntry", deploymentDnsEntry);
               ("useUploadedCertificates", useUploadedCertificates);
               ("createdBy", createdBy);
               ("created", parseTimePropertyValue created);
               ("updatedBy", updatedBy)] |}).

End Converter.

(* ===================================================================== *)
(** ** Vocabulary of the statements *)
(* ===================================================================== *)

Definition auth_endpoint : string := BASE_URI ++ "/auth".

(** The form body [authenticate] posts. *)
Definition credentials_form (config : IntegrationConfig) : string :=
  URLSearchParams_toString (tokenRequest config).

Definition bearer (token : JSValue) : list (string * string) :=
  [("Authorization", "Bearer " ++ to_string token)].

Definition is_network (ev : Event) : bool :=
  match ev with
  | EvPost _ _ _ | EvGet _ _ _ => true
  | EvIteratee _ _ => false
  end.

(** The axios calls of a trace, in order. *)
Definition network_calls (tr : list Event) : list Event := filter is_network tr.

(** The elements the iteratee was called with, in order. *)
Fixpoint iteratee_calls (tr : list Event) : list JSValue :=
  match tr with
  | [] => []
  | EvIteratee each _ :: rest => each :: iteratee_calls rest
  | _ :: rest => iteratee_calls rest
  end.

(** The message of [new Error(v)], for a value ToString converts. *)
Definition error_message (v : JSValue) : string :=
  match v with
  | JUndefined => ""
  | _ => to_string v
  end.

(** The two SDK classes for provider failures, as opposed to the language's
    own errors. *)
Definition is_provider_error (e : JSError) : bool :=
  match e with
  | IntegrationProviderAuthenticationError _ _ _ _
  | IntegrationProviderAPIError _ _ _ _ => true
  | _ => false
  end.

(** The axios calls one resource fetch may make: the authentication POST
    alone when no token comes out of it, or that POST followed by one GET of
    the endpoint whose bearer is the token of that very response. *)
Inductive fetch_calls (config : IntegrationConfig) (endpoint : string)
  : list Event -> Prop :=
| fetch_calls_rejected error :
    fetch_calls config endpoint
      [EvPost auth_endpoint (credentials_form config) (Rejected error)]
| fetch_calls_unreadable response error :
    get_prop (data response) "token" = inl error ->
    fetch_calls config endpoint
      [EvPost auth_endpoint (credentials_form config) (Resolved response)]
| fetch_calls_get response token result :
    get_prop (data response) "token" = inr token ->
    fetch_calls config endpoint
      [EvPost auth_endpoint (credentials_form config) (Resolved response);
       EvGet endpoint (bearer token) result].

(** What the three iterators have in common once the endpoint is known: one
    fetch, then the loop over the [data] of the body. *)
Definition fetch_and_iterate (config : IntegrationConfig) (endpoint : string)
    (iteratee : JSValue -> Prog unit) : Prog unit :=
  body <- fetch config endpoint ;;
  data <- lift (get_prop body "data") ;;
  items <- iterable data ;;
  for_of items iteratee.

(** The three iterators, each with the endpoint it reads. *)
Inductive iterates (config : IntegrationConfig) : Prog unit -> string -> Prop :=
| iterates_corps :
    iterates config (iterateCorps config call_iteratee) (BASE_URI ++ "/corps")
| iterates_users corp endpoint :
    buildEndpoint corp (Some "/users") = inr endpoint ->
    iterates config (iterateUsers config corp call_iteratee) endpoint
| iterates_cloudwaf corp endpoint :
    buildEndpoint corp (Some "/cloudwafInstances") = inr endpoint ->
    iterates config (iterateCloudWAFInstances config corp call_iteratee) endpoint.

(** The state the environment is left in after the iteratee has run on each
    element in turn, each call starting where the previous one ended. *)
Definition after_iteratees {S : Type} (env : Env S) (items : list JSValue) (s : S) : S :=
  fold_left (fun st each => snd (env_iteratee env each st)) items s.

(** What an iterator [prog] is to do at [endpoint], once the credentials
    gave [token] (leaving the environment in [s1]): whenever the GET of that
    endpoint with that token is answered with 200 and a body whose [data]
    iterates as [items], the run succeeds; its calls are the POST, that one
    GET, then the iteratee on each of [items] in order, each completed; and
    the environment ends where the iteratee calls, run one after the other,
    leave it. *)
Definition fetches_once_then_each {S : Type} (env : Env S) (config : IntegrationConfig)
    (w : World S) (auth : Response) (s1 : S) (token : JSValue)
    (endpoint : string) (prog : Prog unit) : Prop :=
  forall (response : Response) (s2 : S) (collection : JSValue) (items : list JSValue),
    env_get env endpoint (bearer token) (fun _ => true) s1 = (Resolved response, s2) ->
    status response = 200 ->
    get_prop (data response) "data" = inr collection ->
    iterate collection = Some items ->
    run env prog w =
    (inr tt,
     mkWorld (after_iteratees env items s2) token
       (trace w
          ++ [EvPost auth_endpoint (credentials_form config) (Resolved auth);
              EvGet endpoint (bearer token) (Resolved response)]
          ++ map (fun each => EvIteratee each (inr tt)) items)%list).

(** How many requests went over the wire. *)
Definition sent (wire : list Axios.Wire) : nat :=
  List.length
    (filter (fun x => match x with Axios.Sent _ _ => true | _ => false end) wire).

(* ===================================================================== *)
(** ** Concrete environments *)
(* ===================================================================== *)

Module Fixtures.

Definition config : IntegrationConfig :=
  {| email := "dummy-sigsci-api-user"; password := "dummy-sigsci-api-password" |}.

Definition token_body : JSValue := JObj [("token", JStr "abc")].

Definition corps_body : JSValue :=
  JObj [("data", JArr [JObj [("id", JNum 1); ("name", JStr "acme")]])].

(** A scripted environment: the POST settles as [post], the GET as [get];
    the iteratee completes and counts its calls. *)
Definition scripted (post get : AxiosResult) : Env nat :=
  {| env_post := fun _ _ n => (post, n);
     env_get := fun _ _ _ n => (get, n);
     env_iteratee := fun _ n => (inr tt, Datatypes.S n) |}.

Definition start : World nat := mkWorld 0%nat JUndefined [].

(** The client holds a token from an earlier fetch. *)
Definition stale : World nat := mkWorld 0%nat (JStr "old") [].

(** A server whose [/auth] always answers with the given response, and whose
    other endpoints answer with the responses of a script, one per request,
    then with 200 and an empty collection. *)
Definition server (auth : Response) (req : Axios.Request) (script : list Response)
  : Axios.Raw * list Response :=
  match req with
  | Axios.POST _ _ => (Axios.Reply auth, script)
  | Axios.GET _ _ =>
      match script with
      | r :: rest => (Axios.Reply r, rest)
      | [] => (Axios.Reply (mkResponse 200 "OK" (JObj [("data", JArr [])])), [])
      end
  end.

Definition auth_ok : Response := mkResponse 200 "OK" token_body.

Definition auth_denied : Response :=
  mkResponse 401 "Unauthorized" (JObj [("message", JStr "Unauthorized")]).

Definition too_many : Response :=
  mkResponse 429 "Too Many Requests" (JStr "rate limit exceeded").

Definition corps_ok : Response := mkResponse 200 "OK" corps_body.

Definition wire_start (script : list Response) : World (list Response * list Axios.Wire) :=
  mkWorld (script, []) JUndefined [].

(** A cloud-WAF record as the provider returns it. *)
Definition cloudwaf_record : JSValue :=
  JObj [("id", JStr "5f2a");
        ("name", JStr "edge");
        ("workspaceConfigs", JArr [JObj [("siteName", JStr "s1")]]);
        ("deployment", JObj [("status", JStr "done")])].

Definition cloudwaf_no_workspace : JSValue :=
  JObj [("id", JStr "5f2a");
        ("workspaceConfigs", JArr []);
        ("deployment", JObj [("status", JStr "done")])].

Definition parse_time (v : JSValue) : JSValue := JUndefined.

End Fixtures.

(* ===================================================================== *)
(** ** Reading a form body back *)
(* ===================================================================== *)

(** The receiving side of [URLSearchParams_toString]: the
    application/x-www-form-urlencoded parser.  The body is cut at every [&],
    empty pieces are skipped, each piece is cut at its first [=], and both
    halves are decoded: [+] is a space, [%XY] the byte with that hexadecimal
    code. *)
Definition hex_value (c : ascii) : option N :=
  let n := N_of_ascii c in
  if ((48 <=? n) && (n <=? 57))%N then Some (n - 48)%N
  else if ((65 <=? n) && (n <=? 70))%N then Some (n - 55)%N
  else if ((97 <=? n) && (n <=? 102))%N then Some (n - 87)%N
  else None.

Fixpoint form_decode (s : string) : string :=
  match s with
  | EmptyString => EmptyString
  | String c t =>
      if Ascii.eqb c "+" then String " " (form_decode t)
      else if Ascii.eqb c "%" then
        match t with
        | String h (String l rest) =>
            match hex_value h, hex_value l with
            | Some a, Some b => String (ascii_of_N (16 * a + b)) (form_decode rest)
            | _, _ => String c (form_decode t)
            end
        | _ => String c (form_decode t)
        end
      else String c (form_decode t)
  end.

Fixpoint split_on (sep : ascii) (s : string) : list string :=
  match s with
  | EmptyString => [EmptyString]
  | String c rest =>
      if Ascii.eqb c sep then EmptyString :: split_on sep rest
      else match split_on sep rest with
           | p :: ps => String c p :: ps
           | [] => [String c EmptyString]
           end
  end.

(** The two halves of a string around the first occurrence of [sep]. *)
Fixpoint cut_on (sep : ascii) (s : string) : string * string :=
  match s with
  | EmptyString => (EmptyString, EmptyString)
  | String c rest =>
      if Ascii.eqb c sep then (EmptyString, rest)
      else let (a, b) := cut_on sep rest in (String c a, b)
  end.

Definition parse_form (body : string) : list (string * string) :=
  map (fun piece => let (k, v) := cut_on "=" piece in (form_decode k, form_decode v))
    (filter (fun piece => negb (String.eqb piece "")) (split_on "&" body)).

(** Whether a byte occurs in a string. *)
Fixpoint occurs (c : ascii) (s : string) : bool :=
  match s with
  | EmptyString => false
  | String c' rest => Ascii.eqb c' c || occurs c rest
  end.

(* ===================================================================== *)
(** ** The test configuration ([test/config.ts]) *)
(* ===================================================================== *)

Definition DEFAULT_EMAIL : string := "dummy-sigsci-api-user".
Definition DEFAULT_PASSWORD : string := "dummy-sigsci-api-password".

(** [process.env.NAME || fallback]: an unset variable and an empty one both
    give the fallback. *)
Definition env_or (value : option string) (fallback : string) : string :=
  match value with
  | Some v => if String.eqb v "" then fallback else v
  | None => fallback
  end.

(** [integrationConfig], from the two variables of the process environment. *)
Definition integrationConfig (EMAIL PASSWORD : option string) : IntegrationConfig :=
  {| email := env_or EMAIL DEFAULT_EMAIL;
     password := env_or PASSWORD DEFAULT_PASSWORD |}.

(* ===================================================================== *)
(** ** Further vocabulary and environments *)
(* ===================================================================== *)

(** The milliseconds spent waiting between the requests of a wire log. *)
Fixpoint slept (wire : list Axios.Wire) : Z :=
  match wire with
  | [] => 0
  | Axios.Slept ms :: rest => ms + slept rest
  | Axios.Sent _ _ :: rest => slept rest
  end.

(** A completed call of the iteratee, as the trace records it. *)
Definition completed (each : JSValue) : Event := EvIteratee each (inr tt).

Module Scenarios.

(** An iteratee that completes on its first call and throws on its second;
    the environment counts the calls. *)
Definition second_call_throws (post get : AxiosResult) : Env nat :=
  {| env_post := fun _ _ n => (post, n);
     env_get := fun _ _ _ n => (get, n);
     env_iteratee := fun _ n =>
       (match n with
        | 1%nat => inl (Error "iteratee failed")
        | _ => inr tt
        end, Datatypes.S n) |}.

Definition three_corps : Response :=
  mkResponse 200 "OK" (JObj [("data", JArr [JNum 1; JNum 2; JNum 3])]).


(** A body that is the collection itself, with no [data] property around
    it. *)
Definition bare_array : Response :=
  mkResponse 200 "OK" (JArr [JObj [("id", JNum 1); ("name", JStr "acme")]]).

Definition connection_reset : JSError :=
  Rejection [("message", JStr "socket hang up"); ("code", JStr "ECONNRESET")].

(** Another cloud-WAF record, with another id. *)
Definition other_record : JSValue :=
  JObj [("id", JStr "77");
        ("workspaceConfigs", JArr [JObj [("siteName", JStr "s2")]]);
        ("deployment", JObj [])].

(** A provider that knows three endpoints, each with its own collection, and
    answers 404 to any other; the iteratee completes and the environment
    keeps the elements it was passed, in the order of the calls. *)
Definition corps_page : Response :=
  mkResponse 200 "OK"
    (JObj [("data", JArr [JStr "acme"; JStr "globex"; JStr "initech"])]).

Definition users_page : Response :=
  mkResponse 200 "OK" (JObj [("data", JArr [JStr "ann"; JStr "bob"])]).

Definition cloudwafs_page : Response :=
  mkResponse 200 "OK" (JObj [("data", JArr [JNum 7; JNum 8])]).

Definition provider : Env (list JSValue) :=
  {| env_post := fun _ _ seen => (Resolved Fixtures.auth_ok, seen);
     env_get := fun url _ _ seen =>
       (Resolved
          (if String.eqb url (BASE_URI ++ "/corps") then corps_page
           else if String.eqb url (BASE_URI ++ "/corps/acme/users") then users_page
           else if String.eqb url (BASE_URI ++ "/corps/acme/cloudwafInstances")
                then cloudwafs_page
           else mkResponse 404 "Not Found" JNull),
        seen);
     env_iteratee := fun each seen => (inr tt, (seen ++ [each])%list) |}.

Definition nothing_seen : World (list JSValue) := mkWorld [] JUndefined [].

(** A server that never answers. *)
Definition silent (req : Axios.Request) (n : nat) : Axios.Raw * nat :=
  (Axios.NoReply [("message", JStr "socket hang up"); ("code", JStr "ECONNRESET")],
   Datatypes.S n).

End Scenarios.

(* ===================================================================== *)
(** ** Running programs: sequencing and try/catch *)
(* ===================================================================== *)

Local Open Scope list_scope.

Section RunLemmas.

Context {S : Type}.
Variable env : Env S.

Lemma run_bind {A B : Type} (p : Prog A) (f : A -> Prog B) (w : World S) :
  run env (bind p f) w =
  match run env p w with
  | (inl e, w') => (inl e, w')
  | (inr a, w') => run env (f a) w'
  end.
Proof.
  revert w; induction p as [a | e | X eff k IH]; intro w; simpl; try reflexivity.
  destruct (handle env eff w) as [x w1]; apply IH.
Qed.

Lemma run_try_catch {A : Type} (p : Prog A) (h : JSError -> Prog A) (w : World S) :
  run env (try_catch p h) w =
  match run env p w with
  | (inl e, w') => run env (h e) w'
  | (inr a, w') => (inr a, w')
  end.
Proof.
  revert w; induction p as [a | e | X eff k IH]; intro w; simpl; try reflexivity.
  destruct (handle env eff w) as [x w1]; apply IH.
Qed.

Lemma run_lift {A : Type} (r : Result A) (w : World S) :
  run env (lift r) w = (r, w).
Proof. destruct r; reflexivity. Qed.

End RunLemmas.

(* ===================================================================== *)
(** ** [authenticate] and [fetch], step by step *)
(* ===================================================================== *)

Section ClientLemmas.

Context {S : Type}.
Variable env : Env S.
Variable config : IntegrationConfig.

(** [authenticate] makes one POST and nothing else; it returns the [token]
    property of a resolved response and turns everything else into an
    authentication error built from the caught error's own [status] and
    [statusText]. *)
Lemma run_authenticate (w : World S) :
  run env (authenticate config) w =
  let (r, s) := env_post env auth_endpoint (credentials_form config) (outside w) in
  (match r with
   | Resolved response =>
       match get_prop (data response) "token" with
       | inr t => inr t
       | inl err =>
           inl (IntegrationProviderAuthenticationError auth_endpoint
                  (err_prop err "status") (err_prop err "statusText") None)
       end
   | Rejected err =>
       inl (IntegrationProviderAuthenticationError auth_endpoint
              (err_prop err "status") (err_prop err "statusText") None)
   end,
   mkWorld s (this_token w)
     (trace w ++ [EvPost auth_endpoint (credentials_form config) r])).
Proof.
  unfold authenticate; rewrite run_try_catch.
  unfold axios_post, auth_endpoint, credentials_form; simpl.
  destruct (env_post env _ _ (outside w)) as [[response | err] s]; simpl.
  - rewrite run_lift. destruct (get_prop (data response) "token"); reflexivity.
  - reflexivity.
Qed.

(** The classification [fetch] applies to the response of its GET. *)
Lemma run_fetch_after_token (endpoint : string) (w : World S)
    (response : Response) (s1 : S) (token : JSValue) :
  env_post env auth_endpoint (credentials_form config) (outside w)
    = (Resolved response, s1) ->
  get_prop (data response) "token" = inr token ->
  run env (fetch config endpoint) w =
  let (g, s2) := env_get env endpoint (bearer token) (fun _ => true) s1 in
  let w' := mkWorld s2 token
              (trace w ++ [EvPost auth_endpoint (credentials_form config)
                             (Resolved response);
                           EvGet endpoint (bearer token) g]) in
  (match g with
   | Resolved r =>
       if status r =? 200 then inr (data r)
       else
         match new_Error (data r) with
         | inl e => inl e
         | inr cause =>
             if existsb (fun code => status r =? code) [401; 403] then
               inl (IntegrationProviderAuthenticationError endpoint
                      (JNum (status r)) (JStr (statusText r)) (Some cause))
             else
               inl (IntegrationProviderAPIError endpoint
                      (JNum (status r)) (JStr (statusText r)) (Some cause))
         end
   | Rejected err => inl err
   end, w').
Proof.
  intros Hpost Htoken.
  unfold fetch; rewrite run_bind, run_authenticate, Hpost, Htoken.
  cbn [run handle bind outside this_token trace].
  rewrite run_bind; unfold axios_get, bearer.
  cbn [run handle outside this_token trace].
  destruct (env_get env endpoint _ _ s1) as [[r | err] s2];
    cbn [run await_axios]; rewrite <- app_assoc; cbn [app].
  - destruct (status r =? 200); [reflexivity |].
    destruct (existsb _ _); rewrite run_bind, run_lift;
      destruct (new_Error (data r)); reflexivity.
  - reflexivity.
Qed.

(** When no token comes out of the POST, [fetch] stops there. *)
Lemma run_fetch_without_token (endpoint : string) (w : World S)
    (r : AxiosResult) (s1 : S) :
  env_post env auth_endpoint (credentials_form config) (outside w) = (r, s1) ->
  (forall response token,
      r = Resolved response -> get_prop (data response) "token" <> inr token) ->
  exists error,
    run env (fetch config endpoint) w =
    (inl error,
     mkWorld s1 (this_token w)
       (trace w ++ [EvPost auth_endpoint (credentials_form config) r])).
Proof.
  intros Hpost Hno.
  unfold fetch; rewrite run_bind, run_authenticate, Hpost.
  destruct r as [response | err].
  - destruct (get_prop (data response) "token") as [e | t] eqn:Ht.
    + eexists; reflexivity.
    + exfalso; exact (Hno response t eq_refl Ht).
  - eexists; reflexivity.
Qed.

End ClientLemmas.

(* ===================================================================== *)
(** ** [fetch]: classification of the response *)
(* ===================================================================== *)

Lemma new_Error_convertible (v : JSValue) :
  convertible v = true -> new_Error v = inr (Error (error_message v)).
Proof.
  intro H; unfold new_Error, ToString, error_message; rewrite H.
  destruct v; reflexivity.
Qed.

Lemma new_Error_inconvertible (v : JSValue) :
  convertible v = false -> exists message, new_Error v = inl (TypeError message).
Proof.
  intro H; unfold new_Error, ToString; rewrite H.
  destruct v; try discriminate H; eexists; reflexivity.
Qed.

(** C1, as the code has it.  Whenever the GET of [fetch endpoint] is answered
    with a status other than 200 and a body that ToString can convert,
    [fetch] throws: the authentication error when the status is 401 or 403,
    the provider API error for every other status; either error carries the
    endpoint, the status, the status text and, as its cause, the [Error]
    made from the response body (its message is the text of the body, given
    here for bodies whose numbers are within 2^53).  When ToString cannot
    convert the body, making the cause throws, and what [fetch] throws is
    that TypeError. *)
Theorem fetch_non_200_throws :
  forall (S : Type) (env : Env S) (config : IntegrationConfig) (endpoint : string)
         (w : World S) (auth : Response) (s1 : S) (token : JSValue)
         (response : Response) (s2 : S),
    env_post env auth_endpoint (credentials_form config) (outside w)
      = (Resolved auth, s1) ->
    get_prop (data auth) "token" = inr token ->
    env_get env endpoint (bearer token) (fun _ => true) s1 = (Resolved response, s2) ->
    status response <> 200 ->
    (convertible (data response) = true ->
     exists message,
       (exact_numbers (data response) = true ->
        message = error_message (data response))
       /\ (status response = 401 \/ status response = 403 ->
           fst (run env (fetch config endpoint) w) =
           inl (IntegrationProviderAuthenticationError endpoint
                  (JNum (status response)) (JStr (statusText response))
                  (Some (Error message))))
       /\ (status response <> 401 /\ status response <> 403 ->
           fst (run env (fetch config endpoint) w) =
           inl (IntegrationProviderAPIError endpoint
                  (JNum (status response)) (JStr (statusText response))
                  (Some (Error message)))))
    /\ (convertible (data response) = false ->
        exists message,
          fst (run env (fetch config endpoint) w) = inl (TypeError message)).
Proof.
  intros S env config endpoint w auth s1 token response s2 Hpost Htoken Hget Hstatus.
  rewrite (run_fetch_after_token env config endpoint w auth s1 token Hpost Htoken).
  rewrite Hget; cbn [fst].
  apply Z.eqb_neq in Hstatus; rewrite Hstatus.
  split; intro Hbody.
  - rewrite (new_Error_convertible _ Hbody).
    exists (error_message (data response)); split; [reflexivity |].
    cbn [existsb]; split.
    + intros [H | H]; rewrite H; reflexivity.
    + intros [H1 H3]. apply Z.eqb_neq in H1, H3. rewrite H1, H3. reflexivity.
  - destruct (new_Error_inconvertible _ Hbody) as [m ->]; exists m; reflexivity.
Qed.

Lemma fetch_non_200_throws_witness :
  fst (run (Fixtures.scripted (Resolved Fixtures.auth_ok) (Resolved Fixtures.too_many))
         (fetch Fixtures.config (BASE_URI ++ "/corps")) Fixtures.start)
  = inl (IntegrationProviderAPIError (BASE_URI ++ "/corps")
           (JNum 429) (JStr "Too Many Requests")
           (Some (Error "rate limit exceeded"))).
Proof.
  destruct (proj1 (fetch_non_200_throws nat
                     (Fixtures.scripted (Resolved Fixtures.auth_ok)
                        (Resolved Fixtures.too_many))
                     Fixtures.config (BASE_URI ++ "/corps") Fixtures.start
                     Fixtures.auth_ok 0%nat (JStr "abc") Fixtures.too_many 0%nat
                     eq_refl eq_refl eq_refl ltac:(discriminate)) eq_refl)
    as (message & Hmessage & _ & Hapi).
  rewrite (Hapi ltac:(split; discriminate)), (Hmessage eq_refl); reflexivity.
Defined.

(** C1, as stated, at a 500 whose body is the object [{"toString": 1}]: the
    status is not 200, yet [fetch] throws neither provider error; making the
    cause from the body throws a TypeError, and that is what comes out. *)
Lemma fetch_non_200_inconvertible_body_throws_TypeError :
  let response := mkResponse 500 "Internal Server Error" (JObj [("toString", JNum 1)]) in
  let thrown :=
    fst (run (Fixtures.scripted (Resolved Fixtures.auth_ok) (Resolved response))
           (fetch Fixtures.config (BASE_URI ++ "/corps")) Fixtures.start) in
  status response <> 200
  /\ thrown = inl (TypeError "Cannot convert object to primitive value")
  /\ (forall e, thrown = inl e -> is_provider_error e = false).
Proof.
  cbv zeta; split; [discriminate | split; [reflexivity |]].
  intros e H; injection H as <-; reflexivity.
Qed.

(** C2.  Whenever the GET of [fetch endpoint] is answered with status 200,
    [fetch] returns the body of that response as it is and throws nothing. *)
Theorem fetch_200_returns_body :
  forall (S : Type) (env : Env S) (config : IntegrationConfig) (endpoint : string)
         (w : World S) (auth : Response) (s1 : S) (token : JSValue)
         (response : Response) (s2 : S),
    env_post env auth_endpoint (credentials_form config) (outside w)
      = (Resolved auth, s1) ->
    get_prop (data auth) "token" = inr token ->
    env_get env endpoint (bearer token) (fun _ => true) s1 = (Resolved response, s2) ->
    status response = 200 ->
    fst (run env (fetch config endpoint) w) = inr (data response).
Proof.
  intros S env config endpoint w auth s1 token response s2 Hpost Htoken Hget Hstatus.
  rewrite (run_fetch_after_token env config endpoint w auth s1 token Hpost Htoken).
  rewrite Hget, Hstatus; reflexivity.
Qed.

Lemma fetch_200_returns_body_witness :
  fst (run (Fixtures.scripted (Resolved Fixtures.auth_ok) (Resolved Fixtures.corps_ok))
         (fetch Fixtures.config (BASE_URI ++ "/corps")) Fixtures.start)
  = inr Fixtures.corps_body.
Proof.
  apply (fetch_200_returns_body nat
           (Fixtures.scripted (Resolved Fixtures.auth_ok) (Resolved Fixtures.corps_ok))
           Fixtures.config (BASE_URI ++ "/corps") Fixtures.start
           Fixtures.auth_ok 0%nat (JStr "abc") Fixtures.corps_ok 0%nat);
    reflexivity.
Defined.

(* ===================================================================== *)
(** ** The calls a fetch and an iterator make *)
(* ===================================================================== *)

Section Calls.

Context {S : Type}.
Variable env : Env S.
Variable config : IntegrationConfig.

Lemma network_calls_app (a b : list Event) :
  network_calls (a ++ b) = network_calls a ++ network_calls b.
Proof. apply filter_app. Qed.

Lemma fetch_calls_network (endpoint : string) (calls : list Event) :
  fetch_calls config endpoint calls -> network_calls calls = calls.
Proof. intros H; destruct H; reflexivity. Qed.

Lemma fetch_trace (endpoint : string) (w : World S) :
  exists calls,
    trace (snd (run env (fetch config endpoint) w)) = trace w ++ calls
    /\ fetch_calls config endpoint calls.
Proof.
  destruct (env_post env auth_endpoint (credentials_form config) (outside w))
    as [r s1] eqn:Hpost.
  destruct r as [response | err].
  - destruct (get_prop (data response) "token") as [e | token] eqn:Htoken.
    + destruct (run_fetch_without_token env config endpoint w _ s1 Hpost) as [x Hrun].
      { intros r t Hr; injection Hr as <-. rewrite Htoken; discriminate. }
      rewrite Hrun; eexists; split; [reflexivity |].
      eapply fetch_calls_unreadable; eassumption.
    + rewrite (run_fetch_after_token env config endpoint w response s1 token Hpost Htoken).
      destruct (env_get env endpoint (bearer token) _ s1) as [g s2].
      eexists; split; [reflexivity |].
      apply fetch_calls_get; assumption.
  - destruct (run_fetch_without_token env config endpoint w _ s1 Hpost) as [x Hrun].
    { intros r t Hr; discriminate Hr. }
    rewrite Hrun; eexists; split; [reflexivity |].
    apply fetch_calls_rejected.
Qed.

Lemma run_call_iteratee (each : JSValue) (w : World S) :
  run env (call_iteratee each) w =
  let (r, s) := env_iteratee env each (outside w) in
  (r, mkWorld s (this_token w) (trace w ++ [EvIteratee each r])).
Proof.
  unfold call_iteratee; cbn [run handle].
  destruct (env_iteratee env each (outside w)) as [r s]; apply run_lift.
Qed.

(** The loop calls the iteratee on a prefix of the elements, in order, and
    on all of them when it ends without an error; it makes no axios call. *)
Lemma run_for_of_calls (items : list JSValue) (w : World S) :
  exists cbs n,
    trace (snd (run env (for_of items call_iteratee) w)) = trace w ++ cbs
    /\ network_calls cbs = []
    /\ iteratee_calls cbs = firstn n items
    /\ (fst (run env (for_of items call_iteratee) w) = inr tt ->
        iteratee_calls cbs = items).
Proof.
  revert w; induction items as [| x rest IH]; intro w.
  - exists [], 0%nat; cbn; rewrite app_nil_r; auto.
  - cbn [for_of]; rewrite run_bind, run_call_iteratee.
    destruct (env_iteratee env x (outside w)) as [[e | []] s].
    + exists [EvIteratee x (inl e)], 1%nat; cbn.
      repeat split; try reflexivity. discriminate.
    + destruct (IH (mkWorld s (this_token w) (trace w ++ [EvIteratee x (inr tt)])))
        as (cbs & n & Htr & Hnet & Hcalls & Hall).
      exists (EvIteratee x (inr tt) :: cbs), (Datatypes.S n).
      rewrite Htr; cbn [trace]; rewrite <- app_assoc; cbn.
      repeat split; try assumption.
      * rewrite Hcalls; reflexivity.
      * intro H; rewrite (Hall H); reflexivity.
Qed.

(** With an iteratee that completes on every element, the loop calls it once
    per element, in order, each call starting in the state the previous one
    left. *)
Lemma run_for_of_completing (items : list JSValue) (w : World S) :
  (forall each s, fst (env_iteratee env each s) = inr tt) ->
  run env (for_of items call_iteratee) w =
  (inr tt,
   mkWorld (after_iteratees env items (outside w)) (this_token w)
     (trace w ++ map (fun each => EvIteratee each (inr tt)) items)).
Proof.
  intro Hcompletes; revert w; induction items as [| x rest IH]; intro w.
  - cbn; rewrite app_nil_r; destruct w; reflexivity.
  - cbn [for_of]; rewrite run_bind, run_call_iteratee.
    specialize (Hcompletes x (outside w)) as Hx.
    destruct (env_iteratee env x (outside w)) as [r s] eqn:Hcall.
    cbn [fst] in Hx; subst r.
    rewrite IH; cbn [outside this_token trace map].
    unfold after_iteratees; cbn [fold_left]; rewrite Hcall; cbn [snd].
    rewrite <- app_assoc; reflexivity.
Qed.

Lemma fetch_and_iterate_trace (endpoint : string) (w : World S) :
  exists calls,
    trace (snd (run env (fetch_and_iterate config endpoint call_iteratee) w))
      = trace w ++ calls
    /\ fetch_calls config endpoint (network_calls calls).
Proof.
  unfold fetch_and_iterate; rewrite run_bind.
  destruct (fetch_trace endpoint w) as (calls & Htr & Hcalls).
  destruct (run env (fetch config endpoint) w) as [[e | body] w1]; cbn [snd] in Htr.
  - exists calls; cbn [snd]; split; [assumption |].
    rewrite (fetch_calls_network endpoint calls Hcalls); assumption.
  - rewrite run_bind, run_lift.
    destruct (get_prop body "data") as [e | d].
    + exists calls; cbn [snd]; split; [assumption |].
      rewrite (fetch_calls_network endpoint calls Hcalls); assumption.
    + rewrite run_bind; unfold iterable.
      destruct (iterate d) as [items |]; cbn [run].
      * destruct (run_for_of_calls items w1) as (cbs & n & Hcbs & Hnet & _).
        exists (calls ++ cbs); rewrite Hcbs, Htr, app_assoc; split; [reflexivity |].
        rewrite network_calls_app, Hnet, app_nil_r.
        rewrite (fetch_calls_network endpoint calls Hcalls); assumption.
      * exists calls; cbn [snd]; split; [assumption |].
        rewrite (fetch_calls_network endpoint calls Hcalls); assumption.
Qed.

Lemma iterates_fetch_and_iterate (prog : Prog unit) (endpoint : string) :
  iterates config prog endpoint ->
  prog = fetch_and_iterate config endpoint call_iteratee.
Proof.
  intros [| corp ep H | corp ep H]; try reflexivity.
  - unfold iterateUsers; rewrite H; reflexivity.
  - unfold iterateCloudWAFInstances; rewrite H; reflexivity.
Qed.

End Calls.

(** C3.  Every resource fetch starts with one call of [authenticate], hence
    one POST of the credentials, and its GET bears the token of that very
    response, whatever token the client held before: this holds for [fetch],
    for [verifyAuthentication] and for each iterator that reaches the
    network. *)
Theorem every_fetch_authenticates_afresh :
  forall (S : Type) (env : Env S) (config : IntegrationConfig) (w : World S),
    (forall endpoint, exists calls,
        trace (snd (run env (fetch config endpoint) w)) = trace w ++ calls
        /\ fetch_calls config endpoint calls)
    /\ (exists calls,
        trace (snd (run env (verifyAuthentication config) w)) = trace w ++ calls
        /\ fetch_calls config (BASE_URI ++ "/corps") calls)
    /\ (forall prog endpoint,
        iterates config prog endpoint ->
        exists calls,
          trace (snd (run env prog w)) = trace w ++ calls
          /\ fetch_calls config endpoint (network_calls calls)).
Proof.
  intros S env config w; split; [| split].
  - intro endpoint; apply fetch_trace.
  - unfold verifyAuthentication; cbv zeta; rewrite run_bind.
    destruct (fetch_trace env config (BASE_URI ++ "/corps") w) as (calls & Htr & Hcalls).
    exists calls; split; [| assumption].
    destruct (run env (fetch config (BASE_URI ++ "/corps")) w) as [[e | body] w1];
      exact Htr.
  - intros prog endpoint Hit.
    rewrite (iterates_fetch_and_iterate config prog endpoint Hit).
    apply fetch_and_iterate_trace.
Qed.

Lemma every_fetch_authenticates_afresh_witness :
  exists calls,
    trace (snd (run (Fixtures.scripted (Resolved Fixtures.auth_ok)
                       (Resolved Fixtures.corps_ok))
                  (iterateUsers Fixtures.config (JStr "acme") call_iteratee)
                  Fixtures.stale))
      = trace Fixtures.stale ++ calls
    /\ fetch_calls Fixtures.config (BASE_URI ++ "/corps/acme/users")
         (network_calls calls).
Proof.
  apply (proj2 (proj2 (every_fetch_authenticates_afresh nat
           (Fixtures.scripted (Resolved Fixtures.auth_ok) (Resolved Fixtures.corps_ok))
           Fixtures.config Fixtures.stale))).
  apply iterates_users; reflexivity.
Defined.

(* ===================================================================== *)
(** ** The iterators *)
(* ===================================================================== *)

(** C6.  [iterateUsers] and [iterateCloudWAFInstances] called with an empty
    or missing corp (any falsy value) throw a plain [Error], which is neither
    of the two provider errors, and leave the world as it was: no axios call
    is made, [authenticate] included, and the iteratee is never called. *)
Theorem iterators_reject_empty_corp :
  forall (S : Type) (env : Env S) (config : IntegrationConfig) (w : World S)
         (corp : JSValue) (iteratee : JSValue -> Prog unit),
    truthy corp = false ->
    let error := Error ("Parameter 'corp' is required, but received " ++ to_string corp) in
    run env (iterateUsers config corp iteratee) w = (inl error, w)
    /\ run env (iterateCloudWAFInstances config corp iteratee) w = (inl error, w)
    /\ is_provider_error error = false.
Proof.
  intros S env config w corp iteratee Hcorp error.
  unfold iterateUsers, iterateCloudWAFInstances, buildEndpoint.
  rewrite Hcorp; cbn; auto.
Qed.

Lemma iterators_reject_empty_corp_witness :
  run (Fixtures.scripted (Resolved Fixtures.auth_ok) (Resolved Fixtures.corps_ok))
    (iterateUsers Fixtures.config (JStr "") call_iteratee) Fixtures.start
  = (inl (Error "Parameter 'corp' is required, but received "), Fixtures.start).
Proof.
  apply (iterators_reject_empty_corp nat
           (Fixtures.scripted (Resolved Fixtures.auth_ok) (Resolved Fixtures.corps_ok))
           Fixtures.config Fixtures.start (JStr "") call_iteratee).
  reflexivity.
Defined.

Section Iterators.

Context {S : Type}.
Variable env : Env S.
Variable config : IntegrationConfig.

(** What an iterator does once its fetch has returned a body whose [data]
    can be iterated: only the loop is left to run. *)
Lemma run_fetch_and_iterate (endpoint : string) (w : World S)
    (auth : Response) (s1 : S) (token : JSValue) (response : Response) (s2 : S)
    (collection : JSValue) (items : list JSValue) :
  env_post env auth_endpoint (credentials_form config) (outside w)
    = (Resolved auth, s1) ->
  get_prop (data auth) "token" = inr token ->
  env_get env endpoint (bearer token) (fun _ => true) s1 = (Resolved response, s2) ->
  status response = 200 ->
  get_prop (data response) "data" = inr collection ->
  iterate collection = Some items ->
  run env (fetch_and_iterate config endpoint call_iteratee) w =
  run env (for_of items call_iteratee)
    (mkWorld s2 token
       (trace w ++ [EvPost auth_endpoint (credentials_form config) (Resolved auth);
                    EvGet endpoint (bearer token) (Resolved response)])).
Proof.
  intros Hpost Htoken Hget Hstatus Hdata Hiter.
  unfold fetch_and_iterate; rewrite run_bind.
  rewrite (run_fetch_after_token env config endpoint w auth s1 token Hpost Htoken).
  rewrite Hget, Hstatus; cbn [Z.eqb Pos.eqb].
  rewrite run_bind, run_lift, Hdata, run_bind.
  unfold iterable; rewrite Hiter; reflexivity.
Qed.

(** Whatever the iteratee does, an iterator calls it on a prefix of the
    collection, in order: it stops at the first call that throws. *)
Lemma fetch_and_iterate_prefix (endpoint : string) (w : World S)
    (auth : Response) (s1 : S) (token : JSValue) (response : Response) (s2 : S)
    (collection : JSValue) (items : list JSValue) :
  env_post env auth_endpoint (credentials_form config) (outside w)
    = (Resolved auth, s1) ->
  get_prop (data auth) "token" = inr token ->
  env_get env endpoint (bearer token) (fun _ => true) s1 = (Resolved response, s2) ->
  status response = 200 ->
  get_prop (data response) "data" = inr collection ->
  iterate collection = Some items ->
  exists cbs n,
    trace (snd (run env (fetch_and_iterate config endpoint call_iteratee) w))
    = trace w ++ [EvPost auth_endpoint (credentials_form config) (Resolved auth);
                  EvGet endpoint (bearer token) (Resolved response)] ++ cbs
    /\ network_calls cbs = []
    /\ iteratee_calls cbs = firstn n items.
Proof.
  intros Hpost Htoken Hget Hstatus Hdata Hiter.
  rewrite (run_fetch_and_iterate endpoint w auth s1 token response s2 collection items)
    by assumption.
  match goal with
  | |- context [run env (for_of items call_iteratee) ?w1] =>
      destruct (run_for_of_calls env items w1) as (cbs & n & Htr & Hnet & Hcalls & _)
  end.
  exists cbs, n; rewrite Htr; cbn [trace]; rewrite <- app_assoc; auto.
Qed.

End Iterators.

(** C7.  Each of the three iterators makes one fetch (one authentication
    POST and one GET of its own endpoint, no further page) and then calls the
    iteratee once per element of the returned collection, in the collection's
    order; each call starts in the state the previous one left, that is,
    after the previous call completed.  [iterateCorps] reads [/corps];
    [iterateUsers] and [iterateCloudWAFInstances], given a corp, read that
    corp's [/users] and [/cloudwafInstances]. *)
Theorem iterators_one_fetch_then_each_element :
  forall (S : Type) (env : Env S) (config : IntegrationConfig) (w : World S)
         (corp : string) (auth : Response) (s1 : S) (token : JSValue),
    env_post env auth_endpoint (credentials_form config) (outside w)
      = (Resolved auth, s1) ->
    get_prop (data auth) "token" = inr token ->
    (forall each s, fst (env_iteratee env each s) = inr tt) ->
    corp <> "" ->
    fetches_once_then_each env config w auth s1 token
      (BASE_URI ++ "/corps")
      (iterateCorps config call_iteratee)
    /\ fetches_once_then_each env config w auth s1 token
         (BASE_URI ++ "/corps/" ++ corp ++ "/users")
         (iterateUsers config (JStr corp) call_iteratee)
    /\ fetches_once_then_each env config w auth s1 token
         (BASE_URI ++ "/corps/" ++ corp ++ "/cloudwafInstances")
         (iterateCloudWAFInstances config (JStr corp) call_iteratee).
Proof.
  intros S env config w corp auth s1 token Hpost Htoken Hcompletes Hcorp.
  assert (Hcommon : forall endpoint,
             fetches_once_then_each env config w auth s1 token endpoint
               (fetch_and_iterate config endpoint call_iteratee)).
  { intros endpoint response s2 collection items Hget Hstatus Hdata Hiter.
    rewrite (run_fetch_and_iterate env config endpoint w auth s1 token response s2
               collection items) by assumption.
    rewrite (run_for_of_completing env items _ Hcompletes).
    cbn [outside this_token trace]; rewrite <- app_assoc; reflexivity. }
  assert (Htruthy : truthy (JStr corp) = true).
  { cbn [truthy]; destruct (String.eqb_spec corp ""); [contradiction | reflexivity]. }
  split; [| split].
  - exact (Hcommon (BASE_URI ++ "/corps")%string).
  - unfold iterateUsers, buildEndpoint; rewrite Htruthy; cbn [negb String.eqb lift].
    exact (Hcommon (BASE_URI ++ "/corps/" ++ corp ++ "/users")%string).
  - unfold iterateCloudWAFInstances, buildEndpoint; rewrite Htruthy;
      cbn [negb String.eqb lift].
    exact (Hcommon (BASE_URI ++ "/corps/" ++ corp ++ "/cloudwafInstances")%string).
Qed.

Lemma iterators_one_fetch_then_each_element_witness :
  let posted :=
    EvPost auth_endpoint (credentials_form Fixtures.config) (Resolved Fixtures.auth_ok) in
  run Scenarios.provider (iterateCorps Fixtures.config call_iteratee)
    Scenarios.nothing_seen
  = (inr tt,
     mkWorld [JStr "acme"; JStr "globex"; JStr "initech"] (JStr "abc")
       [posted;
        EvGet (BASE_URI ++ "/corps") (bearer (JStr "abc"))
          (Resolved Scenarios.corps_page);
        EvIteratee (JStr "acme") (inr tt);
        EvIteratee (JStr "globex") (inr tt);
        EvIteratee (JStr "initech") (inr tt)])
  /\ run Scenarios.provider (iterateUsers Fixtures.config (JStr "acme") call_iteratee)
       Scenarios.nothing_seen
     = (inr tt,
        mkWorld [JStr "ann"; JStr "bob"] (JStr "abc")
          [posted;
           EvGet (BASE_URI ++ "/corps/acme/users") (bearer (JStr "abc"))
             (Resolved Scenarios.users_page);
           EvIteratee (JStr "ann") (inr tt);
           EvIteratee (JStr "bob") (inr tt)])
  /\ run Scenarios.provider
       (iterateCloudWAFInstances Fixtures.config (JStr "acme") call_iteratee)
       Scenarios.nothing_seen
     = (inr tt,
        mkWorld [JNum 7; JNum 8] (JStr "abc")
          [posted;
           EvGet (BASE_URI ++ "/corps/acme/cloudwafInstances") (bearer (JStr "abc"))
             (Resolved Scenarios.cloudwafs_page);
           EvIteratee (JNum 7) (inr tt);
           EvIteratee (JNum 8) (inr tt)]).
Proof.
  destruct (iterators_one_fetch_then_each_element (list JSValue) Scenarios.provider
              Fixtures.config Scenarios.nothing_seen "acme"
              Fixtures.auth_ok [] (JStr "abc") eq_refl eq_refl
              (fun each s => eq_refl) ltac:(discriminate))
    as (Hcorps & Husers & Hwafs).
  cbv zeta; split; [| split].
  - apply (Hcorps Scenarios.corps_page []
             (JArr [JStr "acme"; JStr "globex"; JStr "initech"])
             [JStr "acme"; JStr "globex"; JStr "initech"]); reflexivity.
  - apply (Husers Scenarios.users_page []
             (JArr [JStr "ann"; JStr "bob"]) [JStr "ann"; JStr "bob"]); reflexivity.
  - apply (Hwafs Scenarios.cloudwafs_page []
             (JArr [JNum 7; JNum 8]) [JNum 7; JNum 8]); reflexivity.
Defined.

(* ===================================================================== *)
(** ** [authenticate] *)
(* ===================================================================== *)

Section Authenticate.

Context {S : Type}.
Variable env : Env S.
Variable config : IntegrationConfig.

(** A resolved POST whose body has a readable [token] property: the property
    is returned as it is, after exactly one POST of the credentials form. *)
Lemma authenticate_returns_token (w : World S) (response : Response) (s : S)
    (token : JSValue) :
  env_post env auth_endpoint (credentials_form config) (outside w)
    = (Resolved response, s) ->
  get_prop (data response) "token" = inr token ->
  run env (authenticate config) w =
  (inr token,
   mkWorld s (this_token w)
     (trace w ++ [EvPost auth_endpoint (credentials_form config) (Resolved response)])).
Proof.
  intros Hpost Htoken; rewrite run_authenticate, Hpost, Htoken; reflexivity.
Qed.

(** A rejected POST: the error thrown takes [status] and [statusText] from
    the caught error's own properties of these names and has no cause. *)
Lemma authenticate_rejected (w : World S) (err : JSError) (s : S) :
  env_post env auth_endpoint (credentials_form config) (outside w)
    = (Rejected err, s) ->
  fst (run env (authenticate config) w) =
  inl (IntegrationProviderAuthenticationError auth_endpoint
         (err_prop err "status") (err_prop err "statusText") None).
Proof.
  intros Hpost; rewrite run_authenticate, Hpost; reflexivity.
Qed.

End Authenticate.

Lemma get_prop_not_nullish (v : JSValue) (name : string) :
  is_nullish v = false -> get_prop v name = inr (get_prop_opt v name).
Proof.
  unfold get_prop_opt; intros H; rewrite H.
  destruct v; try discriminate H; reflexivity.
Qed.

Lemma get_prop_nullish (v : JSValue) (name : string) :
  is_nullish v = true -> exists message, get_prop v name = inl (TypeError message).
Proof.
  destruct v; try discriminate; intros _; eexists; reflexivity.
Qed.

(** C10, as the code has it.  After a resolved POST, [authenticate] returns
    the [token] property of the response body exactly as it is found there,
    with no check on it, and [undefined] when the body is an object without
    that property; only when the body is [null] or [undefined] does the read
    itself throw, and then [authenticate] throws the authentication error. *)
Theorem authenticate_returns_token_property :
  forall (S : Type) (env : Env S) (config : IntegrationConfig) (w : World S)
         (response : Response) (s : S),
    env_post env auth_endpoint (credentials_form config) (outside w)
      = (Resolved response, s) ->
    (is_nullish (data response) = false ->
     fst (run env (authenticate config) w) = inr (get_prop_opt (data response) "token"))
    /\ (forall props,
           data response = JObj props -> lookup "token" props = None ->
           fst (run env (authenticate config) w) = inr JUndefined)
    /\ (is_nullish (data response) = true ->
        fst (run env (authenticate config) w) =
        inl (IntegrationProviderAuthenticationError auth_endpoint
               JUndefined JUndefined None)).
Proof.
  intros S env config w response s Hpost.
  rewrite run_authenticate, Hpost; cbn [fst].
  split; [| split].
  - intro H; rewrite (get_prop_not_nullish _ "token" H); reflexivity.
  - intros props Hdata Hnone; rewrite Hdata; cbn [get_prop]; rewrite Hnone; reflexivity.
  - intro H; destruct (get_prop_nullish _ "token" H) as [m Hm]; rewrite Hm.
    cbn [err_prop String.eqb Ascii.eqb Bool.eqb]; reflexivity.
Qed.

Lemma authenticate_returns_token_property_witness :
  fst (run (Fixtures.scripted (Resolved (mkResponse 200 "OK" (JObj [])))
              (Resolved Fixtures.corps_ok))
         (authenticate Fixtures.config) Fixtures.start)
  = inr JUndefined.
Proof.
  apply (proj1 (authenticate_returns_token_property nat
                  (Fixtures.scripted (Resolved (mkResponse 200 "OK" (JObj [])))
                     (Resolved Fixtures.corps_ok))
                  Fixtures.config Fixtures.start
                  (mkResponse 200 "OK" (JObj [])) 0%nat eq_refl)).
  reflexivity.
Defined.

(** C10, as stated, at a body that is [null]: the POST resolves with 200 and
    the body has no [token] property, yet [authenticate] returns nothing and
    throws the authentication error. *)
Lemma authenticate_null_body_throws :
  let response := mkResponse 200 "OK" JNull in
  let outcome :=
    fst (run (Fixtures.scripted (Resolved response) (Resolved Fixtures.corps_ok))
           (authenticate Fixtures.config) Fixtures.start) in
  get_prop_opt (data response) "token" = JUndefined
  /\ outcome = inl (IntegrationProviderAuthenticationError auth_endpoint
                      JUndefined JUndefined None)
  /\ outcome <> inr JUndefined.
Proof.
  cbv zeta; split; [reflexivity | split; [reflexivity | discriminate]].
Qed.

(* ===================================================================== *)
(** ** The retry layer *)
(* ===================================================================== *)

(** The delay configured for a retry: [retryCount * 1000] ms when the failed
    response's status is 429, and 0 ms otherwise. *)
Lemma retryDelay_status_error (retryCount : Z) (r : Response) :
  retryDelay retryCount (Axios.status_error r) =
  if status r =? 429 then retryCount * 1000 else 0.
Proof. reflexivity. Qed.

Lemma retryDelay_no_response (retryCount : Z) (props : list (string * JSValue)) :
  lookup "response" props = None ->
  retryDelay retryCount (Rejection props) = 0.
Proof.
  intro H; unfold retryDelay; cbn [err_prop]; rewrite H; reflexivity.
Qed.

Section RetryLemmas.

Context {S : Type}.
Variable serve : Axios.Request -> S -> Axios.Raw * S.
Variable retryCondition : JSError -> bool.

(** A request is sent once and re-sent at most [retries_left] times. *)
Lemma request_sends_at_most (retries_left : nat) (retryCount : Z)
    (validateStatus : Z -> bool) (req : Axios.Request) (st : S * list Axios.Wire) :
  (sent (snd (snd (Axios.request serve retryCondition retries_left retryCount
                     validateStatus req st)))
   <= sent (snd st) + Datatypes.S retries_left)%nat.
Proof.
  revert retryCount st; induction retries_left as [| n IH]; intros rc [s wire];
    cbn [Axios.request fst snd];
    destruct (serve req s) as [raw s'];
    destruct (Axios.settle validateStatus raw) as [r | e]; cbn [snd];
    unfold sent; rewrite ?filter_app, ?List.length_app; cbn; try lia.
  destruct (retryCondition e); cbn [snd].
  - specialize (IH (rc + 1) (s', (wire ++ [Axios.Sent req raw])
                                   ++ [Axios.Slept (retryDelay (rc + 1) e)])).
    cbn [snd] in IH; unfold sent in IH.
    rewrite !filter_app, !List.length_app in IH; cbn in IH. lia.
  - rewrite filter_app, List.length_app; cbn; lia.
Qed.

(** A promise that resolves at the first answer is never retried: with a
    [validateStatus] that accepts every status, a response of any status ends
    the request. *)
Lemma request_resolves_at_once (retries_left : nat) (retryCount : Z)
    (req : Axios.Request) (st : S * list Axios.Wire) (r : Response) (s' : S) :
  serve req (fst st) = (Axios.Reply r, s') ->
  Axios.request serve retryCondition retries_left retryCount (fun _ => true) req st
  = (Resolved r, (s', snd st ++ [Axios.Sent req (Axios.Reply r)])).
Proof.
  intro H; destruct retries_left; cbn [Axios.request]; rewrite H; reflexivity.
Qed.

(** A server that answers every request with the same refused status: the
    promise rejects with the status error, retried or not. *)
Lemma request_always_refused (retries_left : nat) (retryCount : Z)
    (validateStatus : Z -> bool) (req : Axios.Request) (st : S * list Axios.Wire)
    (r : Response) :
  (forall s, fst (serve req s) = Axios.Reply r) ->
  validateStatus (status r) = false ->
  fst (Axios.request serve retryCondition retries_left retryCount validateStatus req st)
  = Rejected (Axios.status_error r).
Proof.
  intros Hserve Hrefused; revert retryCount st.
  induction retries_left as [| n IH]; intros rc [s wire]; cbn [Axios.request fst snd];
    specialize (Hserve s) as Hs;
    destruct (serve req s) as [raw s']; cbn [fst] in Hs; subst raw;
    cbn [Axios.settle]; rewrite Hrefused; try reflexivity.
  destruct (retryCondition _); [apply IH | reflexivity].
Qed.

End RetryLemmas.

(** Where the promise does reject, the layer works as configured: with a
    retry condition that accepts the error, a 429 followed by a 200 resolves
    with the 200, after a wait of 1000 ms. *)
Lemma rejected_429_is_retried :
  Axios.request (Fixtures.server Fixtures.auth_ok) (fun _ => true) retries 0
    Axios.default_validateStatus (Axios.GET "u" [])
    ([Fixtures.too_many; Fixtures.corps_ok], [])
  = (Resolved Fixtures.corps_ok,
     ([], [Axios.Sent (Axios.GET "u" []) (Axios.Reply Fixtures.too_many);
           Axios.Slept 1000;
           Axios.Sent (Axios.GET "u" []) (Axios.Reply Fixtures.corps_ok)])).
Proof. reflexivity. Qed.

(** C5, at a GET answered with 429 and then, were it asked again, with 200.
    Whatever the retry condition, [fetch] sends the GET once: the promise
    resolves with the 429 because [validateStatus] accepts every status, the
    retry layer sees no error, and [fetch] throws the provider API error with
    status 429; the 200 is never asked for. *)
Theorem fetch_429_is_not_retried :
  forall retryCondition : JSError -> bool,
    run (Axios.env (Fixtures.server Fixtures.auth_ok) retryCondition)
      (fetch Fixtures.config (BASE_URI ++ "/corps"))
      (Fixtures.wire_start [Fixtures.too_many; Fixtures.corps_ok])
    = (inl (IntegrationProviderAPIError (BASE_URI ++ "/corps")
              (JNum 429) (JStr "Too Many Requests")
              (Some (Error "rate limit exceeded"))),
       mkWorld
         ([Fixtures.corps_ok],
          [Axios.Sent (Axios.POST auth_endpoint (credentials_form Fixtures.config))
             (Axios.Reply Fixtures.auth_ok);
           Axios.Sent (Axios.GET (BASE_URI ++ "/corps") (bearer (JStr "abc")))
             (Axios.Reply Fixtures.too_many)])
         (JStr "abc")
         [EvPost auth_endpoint (credentials_form Fixtures.config)
            (Resolved Fixtures.auth_ok);
          EvGet (BASE_URI ++ "/corps") (bearer (JStr "abc"))
            (Resolved Fixtures.too_many)]).
Proof. intro retryCondition; reflexivity. Qed.

(** C4, at an [/auth] that answers 401.  Whatever the retry condition,
    [authenticate] throws the authentication error, but with [status] and
    [statusText] undefined (the status is under [response] in the caught
    error, and [err.status] is read) and with no cause. *)
Theorem authenticate_failure_loses_status_and_cause :
  forall retryCondition : JSError -> bool,
    fst (run (Axios.env (Fixtures.server Fixtures.auth_denied) retryCondition)
           (authenticate Fixtures.config) (Fixtures.wire_start []))
    = inl (IntegrationProviderAuthenticationError auth_endpoint
             JUndefined JUndefined None).
Proof.
  intro retryCondition.
  destruct (env_post (Axios.env (Fixtures.server Fixtures.auth_denied) retryCondition)
              auth_endpoint (credentials_form Fixtures.config)
              (outside (Fixtures.wire_start []))) as [r s] eqn:Hpost.
  assert (Hr : r = Rejected (Axios.status_error Fixtures.auth_denied)).
  { change r with (fst (r, s)); rewrite <- Hpost.
    apply request_always_refused; [intro; reflexivity | reflexivity]. }
  subst r.
  rewrite (authenticate_rejected _ _ _ _ _ Hpost); reflexivity.
Qed.

(* ===================================================================== *)
(** ** The cloud-WAF converter *)
(* ===================================================================== *)

Lemma get_prop_error (v : JSValue) (name : string) (e : JSError) :
  get_prop v name = inl e -> is_nullish v = true /\ exists message, e = TypeError message.
Proof.
  destruct v; cbn; intro H; try discriminate H;
    injection H as <-; split; try reflexivity; eexists; reflexivity.
Qed.

Lemma get_prop_value (v : JSValue) (name : string) (x : JSValue) :
  get_prop v name = inr x -> is_nullish v = false.
Proof. destruct v; cbn; intro H; try discriminate H; reflexivity. Qed.

Lemma get_first_error (v : JSValue) (e : JSError) :
  get_first v = inl e -> exists message, e = TypeError message.
Proof.
  destruct v; cbn; intro H; try discriminate H; injection H as <-; eexists; reflexivity.
Qed.

Section ConverterLemmas.

Variable parseTimePropertyValue : JSValue -> JSValue.

(** The converter fails with a TypeError or not at all. *)
Lemma createCloudWAFEntity_error (cloudWAF : JSValue) (e : JSError) :
  createCloudWAFEntity parseTimePropertyValue cloudWAF = inl e ->
  exists message, e = TypeError message.
Proof.
  unfold createCloudWAFEntity; intro H.
  repeat match type of H with
         | match ?x with inl _ => _ | inr _ => _ end = _ =>
             let Hx := fresh "Hx" in
             destruct x eqn:Hx;
             [ injection H as <-;
               first [ exact (proj2 (get_prop_error _ _ _ Hx))
                     | exact (get_first_error _ _ Hx) ]
             | ]
         end.
  discriminate H.
Qed.

(** What a successful conversion needed: a first workspace configuration and
    a deployment, neither [null] nor [undefined]. *)
Lemma createCloudWAFEntity_success (cloudWAF : JSValue) (entity : Entity) :
  createCloudWAFEntity parseTimePropertyValue cloudWAF = inr entity ->
  exists workspaceConfigs workspaceConfig deployment,
    get_prop cloudWAF "workspaceConfigs" = inr workspaceConfigs
    /\ get_first workspaceConfigs = inr workspaceConfig
    /\ is_nullish workspaceConfig = false
    /\ get_prop cloudWAF "deployment" = inr deployment
    /\ is_nullish deployment = false.
Proof.
  unfold createCloudWAFEntity; intro H.
  repeat match type of H with
         | match ?x with inl _ => _ | inr _ => _ end = _ =>
             let Hx := fresh "Hx" in
             destruct x eqn:Hx; [discriminate H |]
         end.
  repeat match goal with
         | Hx : get_prop cloudWAF "deployment" = inr ?d,
           Hy : get_prop cloudWAF "deployment" = inr ?d' |- _ =>
             rewrite Hx in Hy; injection Hy as <-
         end.
  do 3 eexists; repeat split; try eassumption;
    eapply get_prop_value; eassumption.
Qed.

End ConverterLemmas.

(** C8.  The converter is a function of the record alone.  For a record with
    a first workspace configuration and a deployment, it yields the entity
    whose [_key] is [sigsci_cloudwaf:] followed by the record's id and whose
    [siteName] is the [siteName] of the first element of the record's
    [workspaceConfigs]; the entity keeps the record as its raw data. *)
Theorem createCloudWAFEntity_key_and_siteName :
  forall (parseTimePropertyValue : JSValue -> JSValue)
         (cloudWAF id workspaceConfigs workspaceConfig siteName deployment : JSValue),
    get_prop cloudWAF "id" = inr id ->
    get_prop cloudWAF "workspaceConfigs" = inr workspaceConfigs ->
    get_first workspaceConfigs = inr workspaceConfig ->
    get_prop workspaceConfig "siteName" = inr siteName ->
    get_prop cloudWAF "deployment" = inr deployment ->
    is_nullish deployment = false ->
    exists entity,
      createCloudWAFEntity parseTimePropertyValue cloudWAF = inr entity
      /\ entity_prop entity "_key" = Some (JStr ("sigsci_cloudwaf:" ++ to_string id))
      /\ entity_prop entity "siteName" = Some siteName
      /\ rawData entity = cloudWAF.
Proof.
  intros ptv cloudWAF id wcs wc site dep Hid Hwcs Hfirst Hsite Hdep Hpresent.
  pose proof (get_prop_value _ _ _ Hid) as Hrecord.
  unfold createCloudWAFEntity.
  rewrite Hid, Hwcs, Hfirst, Hsite, Hdep.
  rewrite !(get_prop_not_nullish cloudWAF _ Hrecord).
  rewrite !(get_prop_not_nullish dep _ Hpresent).
  eexists; split; [reflexivity |].
  repeat split.
Qed.

Lemma createCloudWAFEntity_key_and_siteName_witness :
  exists entity,
    createCloudWAFEntity Fixtures.parse_time Fixtures.cloudwaf_record = inr entity
    /\ entity_prop entity "_key" = Some (JStr "sigsci_cloudwaf:5f2a")
    /\ entity_prop entity "siteName" = Some (JStr "s1")
    /\ rawData entity = Fixtures.cloudwaf_record.
Proof.
  apply (createCloudWAFEntity_key_and_siteName Fixtures.parse_time
           Fixtures.cloudwaf_record (JStr "5f2a")
           (JArr [JObj [("siteName", JStr "s1")]])
           (JObj [("siteName", JStr "s1")]) (JStr "s1")
           (JObj [("status", JStr "done")]));
    reflexivity.
Defined.

(** C9.  The converter is partial.  For a record whose [workspaceConfigs] is
    empty or whose [deployment] is absent, the read of a property of the
    missing element throws a TypeError and no entity is produced; a
    conversion that succeeds had a first workspace configuration and a
    deployment. *)
Theorem createCloudWAFEntity_partial :
  forall (parseTimePropertyValue : JSValue -> JSValue) (cloudWAF : JSValue),
    (get_prop cloudWAF "workspaceConfigs" = inr (JArr [])
     \/ get_prop cloudWAF "deployment" = inr JUndefined ->
     exists message,
       createCloudWAFEntity parseTimePropertyValue cloudWAF = inl (TypeError message))
    /\ (forall entity,
           createCloudWAFEntity parseTimePropertyValue cloudWAF = inr entity ->
           exists workspaceConfigs workspaceConfig deployment,
             get_prop cloudWAF "workspaceConfigs" = inr workspaceConfigs
             /\ get_first workspaceConfigs = inr workspaceConfig
             /\ is_nullish workspaceConfig = false
             /\ get_prop cloudWAF "deployment" = inr deployment
             /\ is_nullish deployment = false).
Proof.
  intros ptv cloudWAF; split.
  - intro Hmissing.
    destruct (createCloudWAFEntity ptv cloudWAF) as [e | entity] eqn:Hrun.
    + destruct (createCloudWAFEntity_error ptv cloudWAF e Hrun) as [m ->].
      exists m; reflexivity.
    + exfalso.
      destruct (createCloudWAFEntity_success ptv cloudWAF entity Hrun)
        as (wcs & wc & dep & Hwcs & Hfirst & Hwc & Hdep & Hpresent).
      destruct Hmissing as [Hempty | Habsent].
      * rewrite Hempty in Hwcs; injection Hwcs as <-.
        cbn in Hfirst; injection Hfirst as <-; discriminate Hwc.
      * rewrite Habsent in Hdep; injection Hdep as <-; discriminate Hpresent.
  - apply createCloudWAFEntity_success.
Qed.

Lemma createCloudWAFEntity_partial_witness :
  exists message,
    createCloudWAFEntity Fixtures.parse_time Fixtures.cloudwaf_no_workspace
    = inl (TypeError message).
Proof.
  apply (proj1 (createCloudWAFEntity_partial Fixtures.parse_time
                  Fixtures.cloudwaf_no_workspace)).
  left; reflexivity.
Defined.

(* ===================================================================== *)
(** ** More on the client: endpoints, failures, what is never done *)
(* ===================================================================== *)

Lemma string_app_empty (s : string) : (s ++ "")%string = s.
Proof. induction s as [| c s IH]; cbn; [reflexivity | rewrite IH; reflexivity]. Qed.

(** X1.  [buildEndpoint] fails exactly on a falsy corp, with a plain [Error]
    naming what it received; on any other corp it returns the corp's resource
    URL followed by the path, an empty path adding as little as a missing
    one. *)
Theorem buildEndpoint_requires_corp :
  forall (corp : JSValue) (path : option string),
    (truthy corp = false ->
     buildEndpoint corp path =
     inl (Error ("Parameter 'corp' is required, but received " ++ to_string corp)))
    /\ (truthy corp = true ->
        buildEndpoint corp path =
        inr (BASE_URI ++ "/corps/" ++ to_string corp
               ++ match path with Some p => p | None => "" end)%string).
Proof.
  intros corp path; unfold buildEndpoint; split; intros ->; cbn [negb].
  - reflexivity.
  - destruct path as [p |]; [| rewrite string_app_empty; reflexivity].
    destruct (String.eqb_spec p "") as [-> | _]; cbn [negb];
      [rewrite string_app_empty |]; reflexivity.
Qed.

Lemma buildEndpoint_requires_corp_witness :
  buildEndpoint (JStr "acme") (Some "/users")
  = inr "https://dashboard.signalsciences.net/api/v0/corps/acme/users".
Proof.
  apply (proj2 (buildEndpoint_requires_corp (JStr "acme") (Some "/users"))).
  reflexivity.
Defined.

Section ClientFailures.

Context {S : Type}.
Variable env : Env S.
Variable config : IntegrationConfig.

(** [fetch] returns a value only from a 200 answer to its GET. *)
Lemma fetch_returns_iff (endpoint : string) (w : World S) (body : JSValue) :
  fst (run env (fetch config endpoint) w) = inr body <->
  exists auth s1 token response s2,
    env_post env auth_endpoint (credentials_form config) (outside w)
      = (Resolved auth, s1)
    /\ get_prop (data auth) "token" = inr token
    /\ env_get env endpoint (bearer token) (fun _ => true) s1 = (Resolved response, s2)
    /\ status response = 200
    /\ body = data response.
Proof.
  split.
  - intro Hrun.
    destruct (env_post env auth_endpoint (credentials_form config) (outside w))
      as [r s1] eqn:Hpost.
    assert (Hyes : exists auth token,
               r = Resolved auth /\ get_prop (data auth) "token" = inr token).
    { destruct r as [auth | err].
      - destruct (get_prop (data auth) "token") as [e | token] eqn:Ht.
        + destruct (run_fetch_without_token env config endpoint w _ s1 Hpost) as [x Hx].
          { intros r t Hr; injection Hr as <-; rewrite Ht; discriminate. }
          rewrite Hx in Hrun; discriminate Hrun.
        + exists auth, token; split; [reflexivity | assumption].
      - destruct (run_fetch_without_token env config endpoint w _ s1 Hpost) as [x Hx].
        { intros r t Hr; discriminate Hr. }
        rewrite Hx in Hrun; discriminate Hrun. }
    destruct Hyes as (auth & token & -> & Htoken).
    rewrite (run_fetch_after_token env config endpoint w auth s1 token Hpost Htoken)
      in Hrun.
    destruct (env_get env endpoint (bearer token) _ s1) as [[response | err] s2] eqn:Hget;
      cbn [fst] in Hrun; [| discriminate Hrun].
    destruct (status response =? 200) eqn:Hstatus.
    + injection Hrun as <-. apply Z.eqb_eq in Hstatus.
      exists auth, s1, token, response, s2; auto.
    + destruct (new_Error (data response)); [| destruct (existsb _ _)];
        discriminate Hrun.
  - intros (auth & s1 & token & response & s2 & Hpost & Htoken & Hget & Hstatus & ->).
    rewrite (run_fetch_after_token env config endpoint w auth s1 token Hpost Htoken).
    rewrite Hget, Hstatus; reflexivity.
Qed.

End ClientFailures.

(** X2.  [authenticate] makes exactly one axios call, the POST of the
    credentials form to [/auth]; it leaves the client's token field alone;
    and whatever goes wrong, the only error it throws is the authentication
    error for the [/auth] endpoint, without a cause. *)
Theorem authenticate_throws_only_authentication_errors :
  forall (S : Type) (env : Env S) (config : IntegrationConfig) (w : World S),
    (exists result,
        trace (snd (run env (authenticate config) w))
        = trace w ++ [EvPost auth_endpoint (credentials_form config) result])
    /\ this_token (snd (run env (authenticate config) w)) = this_token w
    /\ (forall e,
           fst (run env (authenticate config) w) = inl e ->
           exists status statusText,
             e = IntegrationProviderAuthenticationError auth_endpoint
                   status statusText None).
Proof.
  intros S env config w; rewrite run_authenticate.
  destruct (env_post env auth_endpoint (credentials_form config) (outside w))
    as [r s]; cbn [fst snd trace this_token].
  split; [eexists; reflexivity | split; [reflexivity |]].
  intros e He; destruct r as [response | err].
  - destruct (get_prop (data response) "token"); [| discriminate He].
    injection He as <-; eauto.
  - injection He as <-; eauto.
Qed.

(** X3.  When the POST to [/auth] is rejected, [fetch] stops there: no GET is
    sent, the client's token field keeps its old value, and the error thrown
    names the [/auth] endpoint, not the endpoint that was asked for. *)
Theorem fetch_stops_when_authentication_is_rejected :
  forall (S : Type) (env : Env S) (config : IntegrationConfig) (endpoint : string)
         (w : World S) (err : JSError) (s1 : S),
    env_post env auth_endpoint (credentials_form config) (outside w)
      = (Rejected err, s1) ->
    run env (fetch config endpoint) w =
    (inl (IntegrationProviderAuthenticationError auth_endpoint
            (err_prop err "status") (err_prop err "statusText") None),
     mkWorld s1 (this_token w)
       (trace w ++ [EvPost auth_endpoint (credentials_form config) (Rejected err)])).
Proof.
  intros S env config endpoint w err s1 Hpost.
  unfold fetch; rewrite run_bind, run_authenticate, Hpost; reflexivity.
Qed.

Lemma fetch_stops_when_authentication_is_rejected_witness :
  run (Fixtures.scripted (Rejected Scenarios.connection_reset) (Resolved Fixtures.corps_ok))
    (fetch Fixtures.config (BASE_URI ++ "/corps")) Fixtures.stale
  = (inl (IntegrationProviderAuthenticationError auth_endpoint
            JUndefined JUndefined None),
     mkWorld 0%nat (JStr "old")
       [EvPost auth_endpoint (credentials_form Fixtures.config)
          (Rejected Scenarios.connection_reset)]).
Proof.
  apply (fetch_stops_when_authentication_is_rejected nat
           (Fixtures.scripted (Rejected Scenarios.connection_reset)
              (Resolved Fixtures.corps_ok))
           Fixtures.config (BASE_URI ++ "/corps") Fixtures.stale
           Scenarios.connection_reset 0%nat).
  reflexivity.
Defined.

(** X4.  When the GET itself is rejected (no response at all), [fetch]
    throws the rejection as it is, not wrapped in either provider error; the
    token just obtained stays in the client's token field. *)
Theorem fetch_propagates_rejected_get :
  forall (S : Type) (env : Env S) (config : IntegrationConfig) (endpoint : string)
         (w : World S) (auth : Response) (s1 : S) (token : JSValue)
         (err : JSError) (s2 : S),
    env_post env auth_endpoint (credentials_form config) (outside w)
      = (Resolved auth, s1) ->
    get_prop (data auth) "token" = inr token ->
    env_get env endpoint (bearer token) (fun _ => true) s1 = (Rejected err, s2) ->
    run env (fetch config endpoint) w =
    (inl err,
     mkWorld s2 token
       (trace w ++ [EvPost auth_endpoint (credentials_form config) (Resolved auth);
                    EvGet endpoint (bearer token) (Rejected err)])).
Proof.
  intros S env config endpoint w auth s1 token err s2 Hpost Htoken Hget.
  rewrite (run_fetch_after_token env config endpoint w auth s1 token Hpost Htoken).
  rewrite Hget; reflexivity.
Qed.

Lemma fetch_propagates_rejected_get_witness :
  fst (run (Fixtures.scripted (Resolved Fixtures.auth_ok)
              (Rejected Scenarios.connection_reset))
         (fetch Fixtures.config (BASE_URI ++ "/corps")) Fixtures.start)
  = inl Scenarios.connection_reset.
Proof.
  rewrite (fetch_propagates_rejected_get nat
             (Fixtures.scripted (Resolved Fixtures.auth_ok)
                (Rejected Scenarios.connection_reset))
             Fixtures.config (BASE_URI ++ "/corps") Fixtures.start
             Fixtures.auth_ok 0%nat (JStr "abc") Scenarios.connection_reset 0%nat
             eq_refl eq_refl eq_refl).
  reflexivity.
Defined.

(** X5.  When [/auth] answers with a body that is an object without a
    [token] property, [fetch] goes on all the same: it stores [undefined] as
    the token and sends the GET with the header [Bearer undefined]. *)
Theorem fetch_sends_bearer_undefined :
  forall (S : Type) (env : Env S) (config : IntegrationConfig) (endpoint : string)
         (w : World S) (auth : Response) (s1 : S) (props : list (string * JSValue)),
    env_post env auth_endpoint (credentials_form config) (outside w)
      = (Resolved auth, s1) ->
    data auth = JObj props ->
    lookup "token" props = None ->
    exists result,
      trace (snd (run env (fetch config endpoint) w))
      = trace w ++ [EvPost auth_endpoint (credentials_form config) (Resolved auth);
                    EvGet endpoint [("Authorization", "Bearer undefined")] result]
      /\ this_token (snd (run env (fetch config endpoint) w)) = JUndefined.
Proof.
  intros S env config endpoint w auth s1 props Hpost Hdata Hnone.
  assert (Htoken : get_prop (data auth) "token" = inr JUndefined).
  { rewrite Hdata; cbn [get_prop]; rewrite Hnone; reflexivity. }
  rewrite (run_fetch_after_token env config endpoint w auth s1 JUndefined Hpost Htoken).
  destruct (env_get env endpoint (bearer JUndefined) _ s1) as [g s2].
  exists g; split; reflexivity.
Qed.

Lemma fetch_sends_bearer_undefined_witness :
  exists result,
    trace (snd (run (Fixtures.scripted (Resolved (mkResponse 200 "OK" (JObj [])))
                       (Resolved Fixtures.auth_denied))
                  (fetch Fixtures.config (BASE_URI ++ "/corps")) Fixtures.start))
    = trace Fixtures.start
        ++ [EvPost auth_endpoint (credentials_form Fixtures.config)
              (Resolved (mkResponse 200 "OK" (JObj [])));
            EvGet (BASE_URI ++ "/corps") [("Authorization", "Bearer undefined")] result]
    /\ this_token (snd (run (Fixtures.scripted (Resolved (mkResponse 200 "OK" (JObj [])))
                              (Resolved Fixtures.auth_denied))
                         (fetch Fixtures.config (BASE_URI ++ "/corps")) Fixtures.start))
       = JUndefined.
Proof.
  apply (fetch_sends_bearer_undefined nat
           (Fixtures.scripted (Resolved (mkResponse 200 "OK" (JObj [])))
              (Resolved Fixtures.auth_denied))
           Fixtures.config (BASE_URI ++ "/corps") Fixtures.start
           (mkResponse 200 "OK" (JObj [])) 0%nat []);
    reflexivity.
Defined.




(** X7.  [verifyAuthentication] returns normally exactly when the credentials
    yield a token and the GET of [/corps] with that token is answered with
    status 200; the body of that answer plays no part. *)
Theorem verifyAuthentication_succeeds_iff :
  forall (S : Type) (env : Env S) (config : IntegrationConfig) (w : World S),
    fst (run env (verifyAuthentication config) w) = inr tt <->
    exists auth s1 token response s2,
      env_post env auth_endpoint (credentials_form config) (outside w)
        = (Resolved auth, s1)
      /\ get_prop (data auth) "token" = inr token
      /\ env_get env (BASE_URI ++ "/corps") (bearer token) (fun _ => true) s1
         = (Resolved response, s2)
      /\ status response = 200.
Proof.
  intros S env config w.
  unfold verifyAuthentication; cbv zeta; rewrite run_bind.
  destruct (run env (fetch config (BASE_URI ++ "/corps")) w) as [[e | body] w1] eqn:Hrun.
  - split; [discriminate |].
    intros (auth & s1 & token & response & s2 & Hpost & Htoken & Hget & Hstatus).
    assert (H : fst (run env (fetch config (BASE_URI ++ "/corps")) w)
                = inr (data response)).
    { apply fetch_returns_iff; exists auth, s1, token, response, s2; auto. }
    rewrite Hrun in H; discriminate H.
  - split; [intros _ | reflexivity].
    assert (H : fst (run env (fetch config (BASE_URI ++ "/corps")) w) = inr body)
      by (rewrite Hrun; reflexivity).
    apply fetch_returns_iff in H.
    destruct H as (auth & s1 & token & response & s2 & Hpost & Htoken & Hget & Hstatus & _).
    exists auth, s1, token, response, s2; auto.
Qed.

(* ===================================================================== *)
(** ** More on the iterators: what stops them *)
(* ===================================================================== *)

Section IteratorFailures.

Context {S : Type}.
Variable env : Env S.

(** The loop either completes on every element, or stops at the first call
    that throws, with that error, and visits nothing after it. *)
Lemma run_for_of_stops (items : list JSValue) (w : World S) :
  (fst (run env (for_of items call_iteratee) w) = inr tt
   /\ trace (snd (run env (for_of items call_iteratee) w))
      = trace w ++ map completed items)
  \/ exists before x after e,
      items = before ++ x :: after
      /\ fst (run env (for_of items call_iteratee) w) = inl e
      /\ trace (snd (run env (for_of items call_iteratee) w))
         = trace w ++ map completed before ++ [EvIteratee x (inl e)].
Proof.
  revert w; induction items as [| x rest IH]; intro w.
  - left; cbn; rewrite app_nil_r; auto.
  - cbn [for_of]; rewrite run_bind, run_call_iteratee.
    destruct (env_iteratee env x (outside w)) as [[e | []] s].
    + right; exists [], x, rest, e; cbn; auto.
    + destruct (IH (mkWorld s (this_token w) (trace w ++ [EvIteratee x (inr tt)])))
        as [[Hok Htr] | (before & y & after & e & Hitems & Herr & Htr)].
      * left; split; [assumption |].
        rewrite Htr; cbn [trace map]; rewrite <- app_assoc; reflexivity.
      * right; exists (x :: before), y, after, e; subst rest.
        split; [reflexivity | split; [assumption |]].
        rewrite Htr; cbn [trace map]; rewrite <- app_assoc; reflexivity.
Qed.

End IteratorFailures.

(** X8.  An iterator whose fetch returns a body without an iterable [data]
    (no such property, or one that is [undefined], [null], a number, a
    boolean or an object; the collection returned bare, for one) throws a
    TypeError after its one fetch and never calls the iteratee. *)
Theorem iterators_throw_without_iterable_data :
  forall (S : Type) (env : Env S) (config : IntegrationConfig) (w : World S)
         (prog : Prog unit) (endpoint : string)
         (auth : Response) (s1 : S) (token : JSValue) (response : Response) (s2 : S),
    iterates config prog endpoint ->
    env_post env auth_endpoint (credentials_form config) (outside w)
      = (Resolved auth, s1) ->
    get_prop (data auth) "token" = inr token ->
    env_get env endpoint (bearer token) (fun _ => true) s1 = (Resolved response, s2) ->
    status response = 200 ->
    (forall collection,
        get_prop (data response) "data" = inr collection -> iterate collection = None) ->
    exists message,
      run env prog w =
      (inl (TypeError message),
       mkWorld s2 token
         (trace w ++ [EvPost auth_endpoint (credentials_form config) (Resolved auth);
                      EvGet endpoint (bearer token) (Resolved response)])).
Proof.
  intros S env config w prog endpoint auth s1 token response s2
         Hit Hpost Htoken Hget Hstatus Hnone.
  rewrite (iterates_fetch_and_iterate config prog endpoint Hit).
  unfold fetch_and_iterate; rewrite run_bind.
  rewrite (run_fetch_after_token env config endpoint w auth s1 token Hpost Htoken).
  rewrite Hget, Hstatus; cbn [Z.eqb Pos.eqb].
  rewrite run_bind, run_lift.
  destruct (get_prop (data response) "data") as [e | collection] eqn:Hdata.
  - destruct (get_prop_error _ _ _ Hdata) as [_ [m ->]]; exists m; reflexivity.
  - rewrite run_bind; unfold iterable; rewrite (Hnone collection eq_refl).
    eexists; reflexivity.
Qed.

Lemma iterators_throw_without_iterable_data_witness :
  exists message,
    run (Fixtures.scripted (Resolved Fixtures.auth_ok) (Resolved Scenarios.bare_array))
      (iterateCorps Fixtures.config call_iteratee) Fixtures.start
    = (inl (TypeError message),
       mkWorld 0%nat (JStr "abc")
         (trace Fixtures.start
            ++ [EvPost auth_endpoint (credentials_form Fixtures.config)
                  (Resolved Fixtures.auth_ok);
                EvGet (BASE_URI ++ "/corps") (bearer (JStr "abc"))
                  (Resolved Scenarios.bare_array)])).
Proof.
  apply (iterators_throw_without_iterable_data nat
           (Fixtures.scripted (Resolved Fixtures.auth_ok) (Resolved Scenarios.bare_array))
           Fixtures.config Fixtures.start
           (iterateCorps Fixtures.config call_iteratee) (BASE_URI ++ "/corps")
           Fixtures.auth_ok 0%nat (JStr "abc") Scenarios.bare_array 0%nat).
  - apply iterates_corps.
  - reflexivity.
  - reflexivity.
  - reflexivity.
  - reflexivity.
  - intros collection H; injection H as <-; reflexivity.
Defined.

(** X9.  An iterator stops at the first call of the iteratee that throws:
    the elements before it were each passed once, in order, and completed;
    the error of that call is the iterator's own; the elements after it are
    never passed.  When no call throws, every element is passed. *)
Theorem iterators_stop_at_first_throw :
  forall (S : Type) (env : Env S) (config : IntegrationConfig) (w : World S)
         (prog : Prog unit) (endpoint : string)
         (auth : Response) (s1 : S) (token : JSValue) (response : Response) (s2 : S)
         (collection : JSValue) (items : list JSValue),
    iterates config prog endpoint ->
    env_post env auth_endpoint (credentials_form config) (outside w)
      = (Resolved auth, s1) ->
    get_prop (data auth) "token" = inr token ->
    env_get env endpoint (bearer token) (fun _ => true) s1 = (Resolved response, s2) ->
    status response = 200 ->
    get_prop (data response) "data" = inr collection ->
    iterate collection = Some items ->
    let fetched :=
      trace w ++ [EvPost auth_endpoint (credentials_form config) (Resolved auth);
                  EvGet endpoint (bearer token) (Resolved response)] in
    (fst (run env prog w) = inr tt
     /\ trace (snd (run env prog w)) = fetched ++ map completed items)
    \/ exists before x after e,
        items = before ++ x :: after
        /\ fst (run env prog w) = inl e
        /\ trace (snd (run env prog w))
           = fetched ++ map completed before ++ [EvIteratee x (inl e)].
Proof.
  intros S env config w prog endpoint auth s1 token response s2 collection items
         Hit Hpost Htoken Hget Hstatus Hdata Hiter fetched.
  rewrite (iterates_fetch_and_iterate config prog endpoint Hit).
  rewrite (run_fetch_and_iterate env config endpoint w auth s1 token response s2
             collection items) by assumption.
  apply run_for_of_stops.
Qed.

Lemma iterators_stop_at_first_throw_witness :
  exists before x after e,
    [JNum 1; JNum 2; JNum 3] = before ++ x :: after
    /\ fst (run (Scenarios.second_call_throws (Resolved Fixtures.auth_ok)
                   (Resolved Scenarios.three_corps))
              (iterateCorps Fixtures.config call_iteratee) Fixtures.start) = inl e
    /\ trace (snd (run (Scenarios.second_call_throws (Resolved Fixtures.auth_ok)
                          (Resolved Scenarios.three_corps))
                     (iterateCorps Fixtures.config call_iteratee) Fixtures.start))
       = (trace Fixtures.start
            ++ [EvPost auth_endpoint (credentials_form Fixtures.config)
                  (Resolved Fixtures.auth_ok);
                EvGet (BASE_URI ++ "/corps") (bearer (JStr "abc"))
                  (Resolved Scenarios.three_corps)])
           ++ map completed before ++ [EvIteratee x (inl e)].
Proof.
  destruct (iterators_stop_at_first_throw nat
              (Scenarios.second_call_throws (Resolved Fixtures.auth_ok)
                 (Resolved Scenarios.three_corps))
              Fixtures.config Fixtures.start
              (iterateCorps Fixtures.config call_iteratee) (BASE_URI ++ "/corps")
              Fixtures.auth_ok 0%nat (JStr "abc") Scenarios.three_corps 0%nat
              (JArr [JNum 1; JNum 2; JNum 3]) [JNum 1; JNum 2; JNum 3]
              (iterates_corps Fixtures.config) eq_refl eq_refl eq_refl eq_refl
              eq_refl eq_refl)
    as [[Hok _] | H].
  - discriminate Hok.
  - exact H.
Defined.

(* ===================================================================== *)
(** ** More on the converter: keys *)
(* ===================================================================== *)

Section ConverterShape.

Variable parseTimePropertyValue : JSValue -> JSValue.

(** The entity of a successful conversion, property by property. *)
Lemma createCloudWAFEntity_shape (cloudWAF : JSValue) (entity : Entity) :
  createCloudWAFEntity parseTimePropertyValue cloudWAF = inr entity ->
  exists workspaceConfig deployment,
    get_first (get_prop_opt cloudWAF "workspaceConfigs") = inr workspaceConfig
    /\ get_prop_opt cloudWAF "deployment" = deployment
    /\ entity =
       {| properties :=
            [("_type", JStr Entities_CLOUD_WAF_type);
             ("_class", JArr (map JStr Entities_CLOUD_WAF_class));
             ("_key", JStr (getCloudWAFKey (get_prop_opt cloudWAF "id")));
             ("name", get_prop_opt cloudWAF "name");
             ("displayName", get_prop_opt cloudWAF "name");
             ("category", JArr [JStr "application"]);
             ("description", get_prop_opt cloudWAF "description");
             ("region", get_prop_opt cloudWAF "region");
             ("tlsMinVersion", get_prop_opt cloudWAF "tlsMinVersion");
             ("siteName", get_prop_opt workspaceConfig "siteName");
             ("deploymentStatus", get_prop_opt deployment "status");
             ("deploymentMessage", get_prop_opt deployment "message");
             ("deploymentEgressIps", get_prop_opt deployment "egressIps");
             ("deploymentDnsEntry", get_prop_opt deployment "dnsEntry");
             ("useUploadedCertificates", get_prop_opt cloudWAF "useUploadedCertificates");
             ("createdBy", get_prop_opt cloudWAF "createdBy");
             ("created", parseTimePropertyValue (get_prop_opt cloudWAF "created"));
             ("updatedBy", get_prop_opt cloudWAF "updatedBy")];
          rawData := cloudWAF |}.
Proof.
  intro H.
  destruct (createCloudWAFEntity_success parseTimePropertyValue cloudWAF entity H)
    as (wcs & wc & dep & Hwcs & Hfirst & Hwc & Hdep & Hpresent).
  pose proof (get_prop_value _ _ _ Hwcs) as Hrecord.
  rewrite (get_prop_not_nullish cloudWAF _ Hrecord) in Hwcs.
  rewrite (get_prop_not_nullish cloudWAF _ Hrecord) in Hdep.
  injection Hwcs as Hwcs; injection Hdep as Hdep.
  exists wc, dep; rewrite Hwcs; split; [assumption | split; [assumption |]].
  unfold createCloudWAFEntity in H.
  rewrite !(get_prop_not_nullish cloudWAF _ Hrecord) in H.
  rewrite Hwcs, Hfirst, Hdep in H.
  rewrite !(get_prop_not_nullish wc _ Hwc), !(get_prop_not_nullish dep _ Hpresent) in H.
  injection H as <-; reflexivity.
Qed.

End ConverterShape.

(** X12.  Keys tell records apart: two converted records whose ids are
    different strings get different [_key]s. *)
Theorem createCloudWAFEntity_keys_distinct :
  forall (parseTimePropertyValue : JSValue -> JSValue)
         (cloudWAF1 cloudWAF2 : JSValue) (entity1 entity2 : Entity) (id1 id2 : string),
    createCloudWAFEntity parseTimePropertyValue cloudWAF1 = inr entity1 ->
    createCloudWAFEntity parseTimePropertyValue cloudWAF2 = inr entity2 ->
    get_prop cloudWAF1 "id" = inr (JStr id1) ->
    get_prop cloudWAF2 "id" = inr (JStr id2) ->
    id1 <> id2 ->
    entity_prop entity1 "_key" <> entity_prop entity2 "_key".
Proof.
  intros ptv r1 r2 e1 e2 id1 id2 H1 H2 Hid1 Hid2 Hdiff Hkey; apply Hdiff.
  destruct (createCloudWAFEntity_shape ptv r1 e1 H1) as (wc1 & dep1 & _ & _ & ->).
  destruct (createCloudWAFEntity_shape ptv r2 e2 H2) as (wc2 & dep2 & _ & _ & ->).
  rewrite (get_prop_not_nullish r1 _ (get_prop_value _ _ _ Hid1)) in Hid1.
  rewrite (get_prop_not_nullish r2 _ (get_prop_value _ _ _ Hid2)) in Hid2.
  injection Hid1 as Hid1; injection Hid2 as Hid2.
  cbn in Hkey; rewrite Hid1, Hid2 in Hkey; cbn in Hkey.
  injection Hkey as Hkey; exact Hkey.
Qed.

Lemma createCloudWAFEntity_keys_distinct_witness :
  exists entity1 entity2,
    createCloudWAFEntity Fixtures.parse_time Fixtures.cloudwaf_record = inr entity1
    /\ createCloudWAFEntity Fixtures.parse_time Scenarios.other_record = inr entity2
    /\ entity_prop entity1 "_key" <> entity_prop entity2 "_key".
Proof.
  do 2 eexists; split; [reflexivity | split; [reflexivity |]].
  apply (createCloudWAFEntity_keys_distinct Fixtures.parse_time
           Fixtures.cloudwaf_record Scenarios.other_record _ _ "5f2a" "77");
    try reflexivity.
  discriminate.
Defined.

(* ===================================================================== *)
(** ** The form body read back *)
(* ===================================================================== *)

Lemma occurs_app (c : ascii) (a b : string) :
  occurs c (a ++ b)%string = occurs c a || occurs c b.
Proof.
  induction a as [| x a IH]; cbn; [reflexivity |].
  rewrite IH, orb_assoc; reflexivity.
Qed.

(** An encoded byte holds neither [&] nor [=] and decodes to the byte. *)
Lemma form_byte_clean (c : ascii) :
  occurs "&" (form_byte c) = false /\ occurs "=" (form_byte c) = false.
Proof.
  destruct c as [b0 b1 b2 b3 b4 b5 b6 b7];
    destruct b0, b1, b2, b3, b4, b5, b6, b7; split; reflexivity.
Qed.

Lemma form_decode_byte (c : ascii) (t : string) :
  form_decode (form_byte c ++ t) = String c (form_decode t).
Proof.
  destruct c as [b0 b1 b2 b3 b4 b5 b6 b7];
    destruct b0, b1, b2, b3, b4, b5, b6, b7; reflexivity.
Qed.

Lemma form_encode_clean (s : string) :
  occurs "&" (form_encode s) = false /\ occurs "=" (form_encode s) = false.
Proof.
  induction s as [| c s [IHa IHe]]; cbn [form_encode]; [split; reflexivity |].
  rewrite !occurs_app, IHa, IHe.
  destruct (form_byte_clean c) as [-> ->]; split; reflexivity.
Qed.

Lemma form_decode_encode (s : string) : form_decode (form_encode s) = s.
Proof.
  induction s as [| c s IH]; cbn [form_encode]; [reflexivity |].
  rewrite form_decode_byte, IH; reflexivity.
Qed.

Lemma cut_on_first (sep : ascii) (a b : string) :
  occurs sep a = false ->
  cut_on sep (a ++ String sep b) = (a, b).
Proof.
  induction a as [| x a IH]; cbn.
  - rewrite Ascii.eqb_refl; reflexivity.
  - intro H; apply orb_false_iff in H as [Hx Ha].
    rewrite Hx, (IH Ha); reflexivity.
Qed.

Lemma split_on_absent (sep : ascii) (a : string) :
  occurs sep a = false -> split_on sep a = [a].
Proof.
  induction a as [| x a IH]; cbn; [reflexivity |].
  intro H; apply orb_false_iff in H as [Hx Ha].
  rewrite Hx, (IH Ha); reflexivity.
Qed.

Lemma split_on_first (sep : ascii) (a b : string) :
  occurs sep a = false ->
  split_on sep (a ++ String sep b) = a :: split_on sep b.
Proof.
  induction a as [| x a IH]; cbn.
  - rewrite Ascii.eqb_refl; reflexivity.
  - intro H; apply orb_false_iff in H as [Hx Ha].
    rewrite Hx, (IH Ha); reflexivity.
Qed.

Lemma split_on_concat (sep : ascii) (pieces : list string) :
  Forall (fun p => occurs sep p = false) pieces ->
  pieces <> [] ->
  split_on sep (String.concat (String sep "") pieces) = pieces.
Proof.
  induction pieces as [| p rest IH]; intros Hclean Hne; [contradiction |].
  inversion Hclean as [| ? ? Hp Hrest]; subst.
  destruct rest as [| q rest'].
  - cbn; apply split_on_absent; assumption.
  - change (String.concat (String sep "") (p :: q :: rest'))
      with (p ++ String sep (String.concat (String sep "") (q :: rest')))%string.
    rewrite (split_on_first sep p _ Hp), IH; [reflexivity | assumption | discriminate].
Qed.

Lemma form_piece_not_empty (k v : string) :
  String.eqb (form_encode k ++ String "=" (form_encode v)) "" = false.
Proof. destruct (form_encode k); reflexivity. Qed.

(** Every list of entries reads back from its serialization. *)
Lemma parse_form_toString (entries : list (string * string)) :
  parse_form (URLSearchParams_toString entries) = entries.
Proof.
  unfold parse_form, URLSearchParams_toString.
  destruct entries as [| e entries]; [reflexivity |].
  rewrite split_on_concat.
  - generalize (e :: entries); intro l; induction l as [| [k v] l IH];
      [reflexivity |].
    cbn [map filter fst snd].
    change (form_encode k ++ "=" ++ form_encode v)%string
      with (form_encode k ++ String "=" (form_encode v))%string.
    rewrite form_piece_not_empty; cbn [negb map].
    rewrite (cut_on_first "=" _ _ (proj2 (form_encode_clean k))).
    rewrite !form_decode_encode, IH; reflexivity.
  - apply Forall_forall; intros p Hin.
    apply in_map_iff in Hin as [[k v] [<- _]]; cbn [fst snd].
    rewrite !occurs_app, (proj1 (form_encode_clean k)), (proj1 (form_encode_clean v)).
    reflexivity.
  - discriminate.
Qed.

(** X13.  The body [authenticate] posts reads back, by the form parser, as
    exactly the configured email and password, whatever bytes they contain
    ([&], [=], spaces, non-ASCII); so two configurations post the same body
    only if they are the same. *)
Theorem credentials_form_round_trip :
  forall config : IntegrationConfig,
    parse_form (credentials_form config)
    = [("email", email config); ("password", password config)]
    /\ (forall other : IntegrationConfig,
           credentials_form other = credentials_form config -> other = config).
Proof.
  intro config; split.
  - apply (parse_form_toString (tokenRequest config)).
  - intros other Heq.
    pose proof (parse_form_toString (tokenRequest other)) as Hother.
    pose proof (parse_form_toString (tokenRequest config)) as Hconfig.
    unfold credentials_form in Heq; rewrite Heq, Hconfig in Hother.
    unfold tokenRequest in Hother; injection Hother as He Hp.
    destruct other, config; cbn in He, Hp; subst; reflexivity.
Qed.

Lemma credentials_form_round_trip_witness :
  parse_form (credentials_form (mkConfig "a b@x.com" "p&w=d/100%"))
  = [("email", "a b@x.com"); ("password", "p&w=d/100%")].
Proof.
  apply (proj1 (credentials_form_round_trip (mkConfig "a b@x.com" "p&w=d/100%"))).
Defined.

(* ===================================================================== *)
(** ** More on the retry layer: how often and how long *)
(* ===================================================================== *)

Lemma sent_app (a b : list Axios.Wire) : sent (a ++ b) = (sent a + sent b)%nat.
Proof. unfold sent; rewrite filter_app, List.length_app; reflexivity. Qed.

Lemma slept_app (a b : list Axios.Wire) : slept (a ++ b) = slept a + slept b.
Proof.
  induction a as [| [req raw | ms] a IH]; cbn [app slept]; rewrite ?IH; lia.
Qed.

(** A retry never waits a negative time, nor more than a second per retry
    made so far. *)
Lemma retryDelay_bounds (retryCount : Z) (error : JSError) :
  0 <= retryCount -> 0 <= retryDelay retryCount error <= retryCount * 1000.
Proof. intro H; unfold retryDelay; destruct (is_number _ 429); lia. Qed.

Section RetryBounds.

Context {S : Type}.
Variable serve : Axios.Request -> S -> Axios.Raw * S.
Variable retryCondition : JSError -> bool.

Lemma request_sends_at_least_once (retries_left : nat) (retryCount : Z)
    (validateStatus : Z -> bool) (req : Axios.Request) (st : S * list Axios.Wire) :
  (sent (snd st)
   < sent (snd (snd (Axios.request serve retryCondition retries_left retryCount
                       validateStatus req st))))%nat.
Proof.
  revert retryCount st; induction retries_left as [| n IH]; intros rc [s wire];
    cbn [Axios.request fst snd];
    destruct (serve req s) as [raw s'];
    destruct (Axios.settle validateStatus raw) as [r | e]; cbn [snd];
    rewrite ?sent_app; cbn; try lia.
  destruct (retryCondition e); cbn [snd]; [| rewrite sent_app; cbn; lia].
  eapply Nat.le_lt_trans; [| apply IH].
  cbn [snd]; rewrite !sent_app; cbn; lia.
Qed.

Lemma request_waits_at_most (retries_left : nat) (retryCount : Z)
    (validateStatus : Z -> bool) (req : Axios.Request) (st : S * list Axios.Wire) :
  0 <= retryCount ->
  let n := Z.of_nat retries_left in
  let after := snd (snd (Axios.request serve retryCondition retries_left retryCount
                           validateStatus req st)) in
  slept (snd st) <= slept after <= slept (snd st) + 500 * n * (2 * retryCount + n + 1).
Proof.
  revert retryCount st; induction retries_left as [| n IH]; intros rc [s wire] Hrc;
    cbv zeta; cbn [Axios.request fst snd];
    destruct (serve req s) as [raw s'];
    destruct (Axios.settle validateStatus raw) as [r | e]; cbn [snd];
    rewrite ?slept_app; cbn [slept]; try nia.
  destruct (retryCondition e); cbn [snd]; [| rewrite slept_app; cbn [slept]; nia].
  specialize (IH (rc + 1) (s', (wire ++ [Axios.Sent req raw])
                                 ++ [Axios.Slept (retryDelay (rc + 1) e)])).
  cbv zeta in IH; cbn [snd] in IH.
  rewrite !slept_app in IH; cbn [slept] in IH.
  pose proof (retryDelay_bounds (rc + 1) e ltac:(lia)) as Hd.
  specialize (IH ltac:(lia)).
  rewrite Nat2Z.inj_succ; nia.
Qed.

(** A request that never gets a response, under a retry condition that
    accepts its failure: every retry is made, and none waits. *)
Lemma request_unanswered (retries_left : nat) (retryCount : Z)
    (validateStatus : Z -> bool) (req : Axios.Request) (st : S * list Axios.Wire)
    (props : list (string * JSValue)) :
  (forall s, fst (serve req s) = Axios.NoReply props) ->
  retryCondition (Rejection props) = true ->
  lookup "response" props = None ->
  let r := Axios.request serve retryCondition retries_left retryCount
             validateStatus req st in
  fst r = Rejected (Rejection props)
  /\ sent (snd (snd r)) = (sent (snd st) + Datatypes.S retries_left)%nat
  /\ slept (snd (snd r)) = slept (snd st).
Proof.
  intros Hserve Hcond Hnone; revert retryCount st.
  induction retries_left as [| n IH]; intros rc [s wire]; cbv zeta;
    cbn [Axios.request fst snd];
    specialize (Hserve s) as Hs;
    destruct (serve req s) as [raw s']; cbn [fst] in Hs; subst raw;
    cbn [Axios.settle].
  - cbn [fst snd]; rewrite sent_app, slept_app; cbn; repeat split; lia.
  - rewrite Hcond.
    specialize (IH (rc + 1)
                  (s', (wire ++ [Axios.Sent req (Axios.NoReply props)])
                         ++ [Axios.Slept (retryDelay (rc + 1) (Rejection props))])).
    cbv zeta in IH; cbn [snd] in IH; destruct IH as (Hr & Hsent & Hslept).
    rewrite Hr, Hsent, Hslept, !sent_app, !slept_app.
    rewrite (retryDelay_no_response _ _ Hnone); cbn; repeat split; lia.
Qed.

End RetryBounds.

(** X14.  Whatever the status of the answer to its GET (429, 500, 503, ...),
    [fetch] sends that GET once and does not wait: the promise resolves with
    every status, so the retry layer has nothing to retry.  A 200 gives the
    body; any other status gives, for a body ToString can convert, one of
    the two provider errors carrying that status, and otherwise the
    TypeError of making the cause. *)
Theorem fetch_get_answered_is_sent_once :
  forall (S : Type) (serve : Axios.Request -> S -> Axios.Raw * S)
         (retryCondition : JSError -> bool) (config : IntegrationConfig)
         (endpoint : string) (w : World (S * list Axios.Wire))
         (auth : Response) (s1 : S * list Axios.Wire) (token : JSValue)
         (r : Response) (s' : S),
    env_post (Axios.env serve retryCondition) auth_endpoint (credentials_form config)
      (outside w) = (Resolved auth, s1) ->
    get_prop (data auth) "token" = inr token ->
    serve (Axios.GET endpoint (bearer token)) (fst s1) = (Axios.Reply r, s') ->
    outside (snd (run (Axios.env serve retryCondition) (fetch config endpoint) w))
    = (s', snd s1 ++ [Axios.Sent (Axios.GET endpoint (bearer token)) (Axios.Reply r)])
    /\ (status r = 200 ->
        fst (run (Axios.env serve retryCondition) (fetch config endpoint) w)
        = inr (data r))
    /\ (status r <> 200 ->
        convertible (data r) = true ->
        exists e,
          fst (run (Axios.env serve retryCondition) (fetch config endpoint) w) = inl e
          /\ is_provider_error e = true
          /\ err_prop e "status" = JNum (status r))
    /\ (status r <> 200 ->
        convertible (data r) = false ->
        exists message,
          fst (run (Axios.env serve retryCondition) (fetch config endpoint) w)
          = inl (TypeError message)).
Proof.
  intros S serve retryCondition config endpoint w auth s1 token r s' Hpost Htoken Hserve.
  rewrite (run_fetch_after_token _ config endpoint w auth s1 token Hpost Htoken).
  cbn [env_get Axios.env].
  rewrite (request_resolves_at_once serve retryCondition retries 0
             (Axios.GET endpoint (bearer token)) s1 r s' Hserve).
  cbn [fst snd outside]; split; [reflexivity | split; [| split]].
  - intros ->; reflexivity.
  - intros Hstatus Hbody; apply Z.eqb_neq in Hstatus; rewrite Hstatus.
    rewrite (new_Error_convertible _ Hbody).
    destruct (existsb _ _); eexists; repeat split.
  - intros Hstatus Hbody; apply Z.eqb_neq in Hstatus; rewrite Hstatus.
    destruct (new_Error_inconvertible _ Hbody) as [m ->]; exists m; reflexivity.
Qed.

Lemma fetch_get_answered_is_sent_once_witness :
  outside (snd (run (Axios.env (Fixtures.server Fixtures.auth_ok) (fun _ => true))
                  (fetch Fixtures.config (BASE_URI ++ "/corps"))
                  (Fixtures.wire_start [mkResponse 503 "Service Unavailable" JNull])))
  = ([],
     [Axios.Sent (Axios.POST auth_endpoint (credentials_form Fixtures.config))
        (Axios.Reply Fixtures.auth_ok)]
     ++ [Axios.Sent (Axios.GET (BASE_URI ++ "/corps") (bearer (JStr "abc")))
           (Axios.Reply (mkResponse 503 "Service Unavailable" JNull))]).
Proof.
  apply (proj1 (fetch_get_answered_is_sent_once (list Response)
                  (Fixtures.server Fixtures.auth_ok) (fun _ => true)
                  Fixtures.config (BASE_URI ++ "/corps")
                  (Fixtures.wire_start [mkResponse 503 "Service Unavailable" JNull])
                  Fixtures.auth_ok
                  ([mkResponse 503 "Service Unavailable" JNull],
                   [Axios.Sent (Axios.POST auth_endpoint (credentials_form Fixtures.config))
                      (Axios.Reply Fixtures.auth_ok)])
                  (JStr "abc") (mkResponse 503 "Service Unavailable" JNull) []
                  eq_refl eq_refl eq_refl)).
Defined.

(** X15.  One axios call of the client, retries included, puts between one
    and six requests on the wire and waits at most 15 seconds in all
    (1 + 2 + 3 + 4 + 5 seconds, when every retry follows a 429). *)
Theorem axios_call_is_bounded :
  forall (S : Type) (serve : Axios.Request -> S -> Axios.Raw * S)
         (retryCondition : JSError -> bool) (validateStatus : Z -> bool)
         (req : Axios.Request) (st : S * list Axios.Wire),
    let after := snd (snd (Axios.request serve retryCondition retries 0
                             validateStatus req st)) in
    (sent (snd st) < sent after <= sent (snd st) + 6)%nat
    /\ slept (snd st) <= slept after <= slept (snd st) + 15000.
Proof.
  intros S serve retryCondition validateStatus req st after; subst after.
  split; [split |].
  - apply request_sends_at_least_once.
  - apply (request_sends_at_most serve retryCondition retries 0 validateStatus req st).
  - apply (request_waits_at_most serve retryCondition retries 0 validateStatus req st).
    lia.
Qed.

(** X16.  A request that gets no response at all, under a retry condition
    that accepts the failure, is sent six times in a row without any wait
    between the attempts (the delay is 0 when the error has no response),
    and then rejects with the transport's error. *)
Theorem unanswered_request_is_retried_without_delay :
  forall (S : Type) (serve : Axios.Request -> S -> Axios.Raw * S)
         (retryCondition : JSError -> bool) (validateStatus : Z -> bool)
         (req : Axios.Request) (st : S * list Axios.Wire)
         (props : list (string * JSValue)),
    (forall s, fst (serve req s) = Axios.NoReply props) ->
    retryCondition (Rejection props) = true ->
    lookup "response" props = None ->
    let r := Axios.request serve retryCondition retries 0 validateStatus req st in
    fst r = Rejected (Rejection props)
    /\ sent (snd (snd r)) = (sent (snd st) + 6)%nat
    /\ slept (snd (snd r)) = slept (snd st).
Proof.
  intros S serve retryCondition validateStatus req st props Hserve Hcond Hnone.
  apply (request_unanswered serve retryCondition retries 0 validateStatus req st props
           Hserve Hcond Hnone).
Qed.

Lemma unanswered_request_is_retried_without_delay_witness :
  let r := Axios.request Scenarios.silent (fun _ => true) retries 0
             Axios.default_validateStatus (Axios.POST auth_endpoint "") (0%nat, []) in
  fst r = Rejected Scenarios.connection_reset
  /\ sent (snd (snd r)) = 6%nat
  /\ slept (snd (snd r)) = 0.
Proof.
  apply (unanswered_request_is_retried_without_delay nat Scenarios.silent
           (fun _ => true) Axios.default_validateStatus
           (Axios.POST auth_endpoint "") (0%nat, [])
           [("message", JStr "socket hang up"); ("code", JStr "ECONNRESET")]).
  - intro s; reflexivity.
  - reflexivity.
  - reflexivity.
Defined.

(* ===================================================================== *)
(** ** The test configuration *)
(* ===================================================================== *)

(** X17.  The test configuration never has an empty email or password: a
    variable of the environment that is set and not empty is taken as it is,
    an unset or empty one gives the dummy default. *)
Theorem integrationConfig_never_empty :
  forall EMAIL PASSWORD : option string,
    let config := integrationConfig EMAIL PASSWORD in
    email config <> "" /\ password config <> ""
    /\ (forall v, EMAIL = Some v -> v <> "" -> email config = v)
    /\ (forall v, PASSWORD = Some v -> v <> "" -> password config = v)
    /\ (EMAIL = None \/ EMAIL = Some "" -> email config = DEFAULT_EMAIL)
    /\ (PASSWORD = None \/ PASSWORD = Some "" -> password config = DEFAULT_PASSWORD).
Proof.
  intros EMAIL PASSWORD config; subst config; cbn [integrationConfig email password].
  assert (Hor : forall value fallback,
             fallback <> "" ->
             env_or value fallback <> ""
             /\ (forall v, value = Some v -> v <> "" -> env_or value fallback = v)
             /\ (value = None \/ value = Some "" -> env_or value fallback = fallback)).
  { intros value fallback Hfb; unfold env_or; destruct value as [v |].
    - destruct (String.eqb_spec v "") as [-> | Hv]; repeat split; auto.
      + intros v' Hv' Hne; injection Hv' as <-; contradiction.
      + intros v' Hv'; injection Hv' as <-; reflexivity.
      + intros [H | H]; [discriminate H | injection H as ->; contradiction].
    - repeat split; auto; intros v H; discriminate H. }
  destruct (Hor EMAIL DEFAULT_EMAIL ltac:(discriminate)) as (He1 & He2 & He3).
  destruct (Hor PASSWORD DEFAULT_PASSWORD ltac:(discriminate)) as (Hp1 & Hp2 & Hp3).
  repeat split; assumption.
Qed.
